(** * cardsharp: the blackjack round state machine and the high-card game

    A shallow embedding of [cardsharp/blackjack/state.py],
    [cardsharp/blackjack/blackjack.py] and [cardsharp/high_card/high_card.py].

    Python objects that are mutated in place become records that are passed
    along explicitly; a call that raises (an exhausted deck, a missing
    dictionary key, an index out of range) or a loop that never ends gives
    [None].  The io interface is the list of the messages it was given.  A
    Python [float] is a double: a [spec_float] at precision 53 with the
    exponents of binary64. *)

From Stdlib Require Import ZArith QArith String List Lia.
From Stdlib Require Import Floats.SpecFloat.
From stdpp Require Import base option list strings pretty gmap fin_maps.

Local Open Scope string_scope.
Local Open Scope list_scope.
Local Open Scope Z_scope.

(** ** Loops over the seated players

    [for player in game.players: body] where the body mutates the player and
    the rest of the game.  The rest of the game is threaded through as [s];
    the visited player is handed to the body and written back in place. *)
Section ForEach.
Context {S P : Type}.

Fixpoint for_each (body : S -> P -> S * P) (s : S) (ps : list P) : S * list P :=
  match ps with
  | [] => (s, [])
  | p :: rest =>
      let '(s1, p1) := body s p in
      let '(s2, rest') := for_each body s1 rest in
      (s2, p1 :: rest')
  end.

Fixpoint for_each_opt (body : S -> P -> option (S * P)) (s : S) (ps : list P)
  : option (S * list P) :=
  match ps with
  | [] => Some (s, [])
  | p :: rest =>
      match body s p with
      | None => None
      | Some (s1, p1) =>
          match for_each_opt body s1 rest with
          | None => None
          | Some (s2, rest') => Some (s2, p1 :: rest')
          end
      end
  end.
End ForEach.

Module Blackjack.

(** The collaborators of the state machine that live outside the three source
    files: the card type with its printer, the hand evaluator, the dealer's
    policy and the players' decision policy.  The state machine is written
    against this interface. *)
Class Collaborators := {
  Card : Type;
  show_card : Card -> string;          (* str(card) *)
  value : list Card -> Z;              (* hand.value() *)
  has_ace : list Card -> bool;         (* dealer.has_ace() *)
  should_hit : list Card -> bool;      (* dealer.should_hit() *)
  decide_action : list Card -> string  (* player.decide_action() *)
}.

Section Game.
Context `{Collaborators}.

Record Player := mkPlayer {
  name : string;
  current_hand : list Card;
  bet : Z;
  insurance : Z;
  blackjack : bool;
  done : bool;
  winner : option string;
  payouts : list Q       (* the amounts handed to [payout], oldest first *)
}.

Record Dealer := mkDealer {
  d_current_hand : list Card;
  d_winner : option string
}.

Record SimulationStats := mkStats {
  games_played : Z;
  player_wins : Z;
  dealer_wins : Z;
  draws : Z
}.

Inductive GameState :=
  | WaitingForPlayersState
  | PlacingBetsState
  | DealingState
  | OfferInsuranceState
  | PlayersTurnState
  | DealersTurnState
  | EndRoundState.

(** [__str__] of the state classes. *)
Definition str_state (s : GameState) : string :=
  match s with
  | WaitingForPlayersState => "WaitingForPlayersState"
  | PlacingBetsState => "PlacingBetsState"
  | DealingState => "DealingState"
  | OfferInsuranceState => "OfferInsuranceState"
  | PlayersTurnState => "PlayersTurnState"
  | DealersTurnState => "DealersTurnState"
  | EndRoundState => "EndRoundState"
  end.

Record BlackjackGame := mkGame {
  players : list Player;
  io_interface : list string;
  dealer : Dealer;
  rules : gmap string Z;
  deck : list Card;
  current_state : GameState;
  stats : SimulationStats
}.

(** *** Field updates *)

Definition with_players (g : BlackjackGame) (ps : list Player) : BlackjackGame :=
  mkGame ps (io_interface g) (dealer g) (rules g) (deck g) (current_state g) (stats g).
Definition with_dealer (g : BlackjackGame) (d : Dealer) : BlackjackGame :=
  mkGame (players g) (io_interface g) d (rules g) (deck g) (current_state g) (stats g).
Definition with_deck (g : BlackjackGame) (d : list Card) : BlackjackGame :=
  mkGame (players g) (io_interface g) (dealer g) (rules g) d (current_state g) (stats g).
Definition with_stats (g : BlackjackGame) (s : SimulationStats) : BlackjackGame :=
  mkGame (players g) (io_interface g) (dealer g) (rules g) (deck g) (current_state g) s.

(** [game.io_interface.output(msg)] *)
Definition output (g : BlackjackGame) (msg : string) : BlackjackGame :=
  mkGame (players g) (io_interface g ++ [msg]) (dealer g) (rules g) (deck g)
         (current_state g) (stats g).

(** [BlackjackGame.set_state] *)
Definition set_state (g : BlackjackGame) (state : GameState) : BlackjackGame :=
  let g := output g ("Changing state to " +:+ str_state state +:+ ".") in
  mkGame (players g) (io_interface g) (dealer g) (rules g) (deck g) state (stats g).

Definition set_winner (p : Player) (w : option string) : Player :=
  mkPlayer (name p) (current_hand p) (bet p) (insurance p) (blackjack p) (done p) w (payouts p).
Definition set_blackjack (p : Player) (b : bool) : Player :=
  mkPlayer (name p) (current_hand p) (bet p) (insurance p) b (done p) (winner p) (payouts p).

(** *** Methods of [Player], [Dealer] and [Deck] *)

(** Modelled from the spec: [Player.place_bet] of cardsharp/blackjack/actor.py,
    which is not among the sources; the bet amount is recorded on the player. *)
Definition place_bet (p : Player) (amount : Z) : Player :=
  mkPlayer (name p) (current_hand p) amount (insurance p) (blackjack p) (done p)
           (winner p) (payouts p).

(** Modelled from the spec: [Player.payout] of cardsharp/blackjack/actor.py.
    The amount is credited to the player; the model keeps every credited
    amount, in order, and leaves the bet and the flags as they are. *)
Definition payout (p : Player) (amount : Q) : Player :=
  mkPlayer (name p) (current_hand p) (bet p) (insurance p) (blackjack p) (done p)
           (winner p) (payouts p ++ [amount]).

(** Modelled from the spec: [Player.buy_insurance] of cardsharp/blackjack/actor.py;
    the insurance stake is recorded on the player. *)
Definition buy_insurance (p : Player) (amount : Z) : Player :=
  mkPlayer (name p) (current_hand p) (bet p) amount (blackjack p) (done p)
           (winner p) (payouts p).

(** Modelled from the spec: [add_card] appends to the ordered hand. *)
Definition add_card (p : Player) (c : Card) : Player :=
  mkPlayer (name p) (current_hand p ++ [c]) (bet p) (insurance p) (blackjack p) (done p)
           (winner p) (payouts p).
Definition dealer_add_card (d : Dealer) (c : Card) : Dealer :=
  mkDealer (d_current_hand d ++ [c]) (d_winner d).

(** Modelled from the spec: [Player.stand] and [Player.is_done]. *)
Definition stand (p : Player) : Player :=
  mkPlayer (name p) (current_hand p) (bet p) (insurance p) (blackjack p) true
           (winner p) (payouts p).
Definition is_done (p : Player) : bool := done p.

(** Modelled from the spec: [is_busted] is true iff the hand value exceeds 21. *)
Definition is_busted (p : Player) : bool := 21 <? value (current_hand p).

(** Modelled from the spec: [Player.reset] clears the hand and the per-round
    flags; the bet persists. *)
Definition reset_player (p : Player) : Player :=
  mkPlayer (name p) [] (bet p) 0 false false None (payouts p).

(** [game.deck.deal()]: the top card; an exhausted deck raises. *)
Definition deal_card (g : BlackjackGame) : option (Card * BlackjackGame) :=
  match deck g with
  | [] => None
  | c :: rest => Some (c, with_deck g rest)
  end.

(** [player.bet * 1.5], the one product with a float, as the amount the
    records of the game keep: the exact rational, in lowest terms.  The code
    computes the product in double precision, which is [double_times] below;
    the two agree as long as [bet] and the product need no rounding, which is
    the case for every bet within [exact_product], the bet of 10 that
    [PlacingBetsState] places among them.  A statement about the amount paid
    carries that range. *)
Definition times (b : Z) (r : Q) : Q := Qred (inject_Z b * r).

(** [float(b)], the conversion that [int * float] starts with: the double
    nearest to the integer, ties to even; an integer beyond the doubles
    raises [OverflowError]. *)
Definition float_of_int (b : Z) : option spec_float :=
  match binary_normalize 53 1024 b 0 false with
  | S754_infinity _ => None
  | x => Some x
  end.

(** The literal [1.5]. *)
Definition one_and_a_half : spec_float := S754_finite false 3 (-1).

(** [player.bet * 1.5] as Python computes it. *)
Definition double_times (b : Z) : option spec_float :=
  match float_of_int b with
  | None => None
  | Some x => Some (SFmul 53 1024 x one_and_a_half)
  end.

(** The rational a finite double stands for. *)
Definition float_value (x : spec_float) : option Q :=
  match x with
  | S754_zero _ => Some 0%Q
  | S754_finite s m e =>
      let m := if s then Z.neg m else Z.pos m in
      Some (match e with
            | Z.neg k => m # 2 ^ k
            | _ => inject_Z (m * 2 ^ e)
            end)
  | _ => None
  end.

(** *** [WaitingForPlayersState] *)

Definition WaitingForPlayersState_add_player (g : BlackjackGame) (player : Player)
  : BlackjackGame :=
  let g := with_players g (players g ++ [player]) in
  output g (name player +:+ " has joined the game.").

(** *** [PlacingBetsState] *)

Definition PlacingBetsState_place_bet (amount : Z) (g : BlackjackGame) (player : Player)
  : BlackjackGame * Player :=
  let player := place_bet player amount in
  (output g (name player +:+ " has placed a bet of " +:+ pretty amount +:+ "."), player).

Definition PlacingBetsState_handle (g : BlackjackGame) : BlackjackGame :=
  let '(g, ps) := for_each (PlacingBetsState_place_bet 10) g (players g) in
  set_state (with_players g ps) DealingState.

(** *** [DealingState] *)

(** One turn of the inner loop of [deal] for a seated player. *)
Definition deal_to_player (g : BlackjackGame) (player : Player)
  : option (BlackjackGame * Player) :=
  match deal_card g with
  | None => None
  | Some (card, g) =>
      let player := add_card player card in
      Some (output g ("Dealt " +:+ show_card card +:+ " to " +:+ name player +:+ "."),
            player)
  end.

(** One pass over [game.players + [game.dealer]]. *)
Definition deal_pass (g : BlackjackGame) : option BlackjackGame :=
  match for_each_opt deal_to_player g (players g) with
  | None => None
  | Some (g, ps) =>
      let g := with_players g ps in
      match deal_card g with
      | None => None
      | Some (card, g) => Some (with_dealer g (dealer_add_card (dealer g) card))
      end
  end.

(** [deal]: [shuffled] is the deck as [reset] and [shuffle] leave it. *)
Definition DealingState_deal (shuffled : list Card) (g : BlackjackGame)
  : option BlackjackGame :=
  let g := with_deck g shuffled in
  match deal_pass g with
  | None => None
  | Some g => deal_pass g
  end.

(** First loop of [check_blackjack]. *)
Definition check_player_blackjack (g : BlackjackGame) (player : Player)
  : BlackjackGame * Player :=
  if value (current_hand player) =? 21 then
    let g := output g (name player +:+ " got a blackjack!") in
    let player := payout player (times (bet player) (3 # 2)) in
    let player := set_blackjack player true in
    (g, set_winner player (Some "player"))
  else (g, player).

Definition add_draw (s : SimulationStats) : SimulationStats :=
  mkStats (games_played s) (player_wins s) (dealer_wins s) (draws s + 1).

(** Second loop of [check_blackjack]; the local [dealer_win] travels with the
    game. *)
Definition check_dealer_blackjack (s : BlackjackGame * bool) (player : Player)
  : (BlackjackGame * bool) * Player :=
  let '(g, dealer_win) := s in
  if blackjack player then
    ((with_stats g (add_draw (stats g)), false), player)
  else
    ((g, dealer_win), set_winner player (Some "dealer")).

Definition check_blackjack (g : BlackjackGame) : BlackjackGame :=
  let '(g, ps) := for_each check_player_blackjack g (players g) in
  let g := with_players g ps in
  if value (d_current_hand (dealer g)) =? 21 then
    let g := output g "Dealer got a blackjack!" in
    let '((g, dealer_win), ps) := for_each check_dealer_blackjack (g, true) (players g) in
    let g := with_players g ps in
    if dealer_win then
      with_dealer g (mkDealer (d_current_hand (dealer g)) (Some "dealer"))
    else g
  else g.

Definition DealingState_handle (shuffled : list Card) (g : BlackjackGame)
  : option BlackjackGame :=
  match DealingState_deal shuffled g with
  | None => None
  | Some g => Some (set_state (check_blackjack g) OfferInsuranceState)
  end.

(** *** [OfferInsuranceState] *)

Definition offer_insurance (g : BlackjackGame) (player : Player)
  : BlackjackGame * Player :=
  if has_ace (d_current_hand (dealer g)) then
    let g := output g "Dealer has an Ace!" in
    let player := buy_insurance player 10 in
    (output g (name player +:+ " has bought insurance."), player)
  else (g, player).

(** [cards[0]] of an empty dealer hand raises. *)
Definition OfferInsuranceState_handle (g : BlackjackGame) : option BlackjackGame :=
  let '(g, ps) := for_each offer_insurance g (players g) in
  let g := with_players g ps in
  match d_current_hand (dealer g) with
  | [] => None
  | card :: _ =>
      let g := output g ("Dealer's face up card is: " +:+ show_card card) in
      Some (set_state g PlayersTurnState)
  end.

(** *** [PlayersTurnState] *)

(** The [while not player.is_done()] loop of one player, with [player_action]
    in place.  [cards] is [game.deck], taken out of the game for the time of
    the loop (the recursion is on it: every round that goes on has dealt a
    card) and put back when the loop is left.  A hit on an empty deck raises;
    an action that is neither "hit" nor "stand" makes the loop go round with
    nothing changed, so it never ends. *)
Fixpoint player_loop (cards : list Card) (g : BlackjackGame) (player : Player)
  {struct cards} : option (BlackjackGame * Player) :=
  if is_done player then Some (with_deck g cards, player)
  else
    let g := output g (name player +:+ "'s turn.") in
    let action := decide_action (current_hand player) in
    if String.eqb action "hit" then
      match cards with
      | [] => None
      | card :: cards =>
          let player := add_card player card in
          let g := output g (name player +:+ " hits and gets " +:+ show_card card +:+ ".") in
          if is_busted player then
            Some (with_deck (output g (name player +:+ " has busted.")) cards, stand player)
          else if value (current_hand player) =? 21 then
            Some (with_deck (output g (name player +:+ " has a blackjack.")) cards,
                  stand player)
          else player_loop cards g player
      end
    else if String.eqb action "stand" then
      let player := stand player in
      Some (with_deck (output g (name player +:+ " stands.")) cards, player)
    else None.

Definition player_turn (g : BlackjackGame) (player : Player)
  : option (BlackjackGame * Player) :=
  player_loop (deck g) g player.

Definition PlayersTurnState_handle (g : BlackjackGame) : option BlackjackGame :=
  match for_each_opt player_turn g (players g) with
  | None => None
  | Some (g, ps) => Some (set_state (with_players g ps) DealersTurnState)
  end.

(** *** [DealersTurnState] *)

Definition dealer_action (g : BlackjackGame) : option BlackjackGame :=
  match deal_card g with
  | None => None
  | Some (card, g) =>
      let g := with_dealer g (dealer_add_card (dealer g) card) in
      Some (output g ("Dealer hits and gets " +:+ show_card card +:+ "."))
  end.

(** [while game.dealer.should_hit(): self.dealer_action(game)], by recursion
    on the deck as in [player_loop]. *)
Fixpoint dealer_loop (cards : list Card) (g : BlackjackGame) {struct cards}
  : option BlackjackGame :=
  if should_hit (d_current_hand (dealer g)) then
    match cards with
    | [] => None
    | card :: cards =>
        let g := with_dealer g (dealer_add_card (dealer g) card) in
        dealer_loop cards (output g ("Dealer hits and gets " +:+ show_card card +:+ "."))
    end
  else Some (with_deck g cards).

Definition DealersTurnState_handle (g : BlackjackGame) : option BlackjackGame :=
  match dealer_loop (deck g) g with
  | None => None
  | Some g => Some (set_state (output g "Dealer stands.") EndRoundState)
  end.

(** *** [EndRoundState] and [SimulationStats] *)

Definition join_cards (cards : list Card) : string :=
  String.concat ", " (map show_card cards).

(** The body of the loop of [calculate_winner]. *)
Definition settle (dealer_hand_value : Z) (g : BlackjackGame) (player : Player)
  : BlackjackGame * Player :=
  let player_hand_value := value (current_hand player) in
  let g := output g (name player +:+ "'s final cards: "
                       +:+ join_cards (current_hand player)) in
  let g := output g (name player +:+ "'s final hand value: "
                       +:+ pretty player_hand_value) in
  if 21 <? player_hand_value then
    (output g (name player +:+ " busts. Dealer wins!"),
     set_winner player (Some "dealer"))
  else if (21 <? dealer_hand_value) || (dealer_hand_value <? player_hand_value) then
    (output g (name player +:+ " wins the round!"),
     set_winner (payout player (inject_Z (bet player * 2))) (Some "player"))
  else if player_hand_value <? dealer_hand_value then
    (output g ("Dealer wins against " +:+ name player +:+ "!"),
     set_winner player (Some "dealer"))
  else
    (output g (name player +:+ " and Dealer tie! It's a push."),
     set_winner (payout player (inject_Z (bet player))) (Some "draw")).

Definition calculate_winner (g : BlackjackGame) : BlackjackGame :=
  let dealer_hand_value := value (d_current_hand (dealer g)) in
  let g := output g ("Dealer's final cards: "
                       +:+ join_cards (d_current_hand (dealer g))) in
  let g := output g ("Dealer's final hand value: " +:+ pretty dealer_hand_value) in
  let '(g, ps) := for_each (settle dealer_hand_value) g (players g) in
  set_state (with_players g ps) PlacingBetsState.

(** [player.winner == tag] *)
Definition winner_is (tag : string) (player : Player) : bool :=
  match winner player with
  | Some w => String.eqb w tag
  | None => false
  end.

Definition incr_if (b : bool) (n : Z) : Z := if b then n + 1 else n.

(** [SimulationStats.update] *)
Definition update (g : BlackjackGame) : BlackjackGame :=
  let s := stats g in
  let g := with_stats g (mkStats (games_played s + 1) (player_wins s) (dealer_wins s)
                                 (draws s)) in
  let g := output g "Updating statistics..." in
  let player_win := existsb (winner_is "player") (players g) in
  let dealer_win := existsb (winner_is "dealer") (players g) in
  let draw := existsb (winner_is "draw") (players g) in
  let s := stats g in
  let g := with_stats g (mkStats (games_played s)
                                 (incr_if player_win (player_wins s))
                                 (incr_if dealer_win (dealer_wins s))
                                 (incr_if draw (draws s))) in
  with_players g (map (fun player => set_winner player None) (players g)).

Definition EndRoundState_handle (g : BlackjackGame) : BlackjackGame :=
  update (calculate_winner g).

(** *** [BlackjackGame] *)

(** [self.current_state.handle(self)].  [WaitingForPlayersState.handle] is an
    [async def]: called like this it only builds a coroutine, which nobody
    awaits, and the game is left as it is. *)
Definition handle (shuffled : list Card) (g : BlackjackGame) : option BlackjackGame :=
  match current_state g with
  | WaitingForPlayersState => Some g
  | PlacingBetsState => Some (PlacingBetsState_handle g)
  | DealingState => DealingState_handle shuffled g
  | OfferInsuranceState => OfferInsuranceState_handle g
  | PlayersTurnState => PlayersTurnState_handle g
  | DealersTurnState => DealersTurnState_handle g
  | EndRoundState => Some (EndRoundState_handle g)
  end.

Definition is_waiting (s : GameState) : bool :=
  match s with WaitingForPlayersState => true | _ => false end.

(** [self.current_state.add_player(self, player)]: only
    [WaitingForPlayersState] overrides the empty default of [GameState]. *)
Definition state_add_player (g : BlackjackGame) (player : Player) : BlackjackGame :=
  match current_state g with
  | WaitingForPlayersState => WaitingForPlayersState_add_player g player
  | _ => g
  end.

(** [BlackjackGame.add_player]; [None] as argument is Python's [None], [None]
    as result is the [KeyError] of [rules["max_players"]]. *)
Definition add_player (g : BlackjackGame) (player : option Player)
  : option BlackjackGame :=
  match player with
  | None => Some (output g "Invalid player.")
  | Some player =>
      match rules g !! "max_players" with
      | None => None
      | Some max_players =>
          if max_players <=? Z.of_nat (length (players g)) then
            Some (output g "Game is full.")
          else if negb (is_waiting (current_state g)) then
            Some (output g "Game has already started.")
          else Some (state_add_player g player)
      end
  end.

(** The [while] loop of [play_round]; it is left when the state is
    [EndRoundState]. *)
Fixpoint play_round_loop (fuel : nat) (shuffled : list Card) (g : BlackjackGame)
  : option BlackjackGame :=
  match current_state g with
  | EndRoundState => Some g
  | state =>
      match fuel with
      | O => None
      | S fuel =>
          match handle shuffled (output g ("Current state: " +:+ str_state state)) with
          | None => None
          | Some g => play_round_loop fuel shuffled g
          end
      end
  end.

Definition play_round (fuel : nat) (shuffled : list Card) (g : BlackjackGame)
  : option BlackjackGame :=
  match play_round_loop fuel shuffled g with
  | None => None
  | Some g => handle shuffled (output g "Calculating winner...")
  end.

(** [BlackjackGame.reset]; [new_deck] is [Deck()]. *)
Definition reset (new_deck : list Card) (g : BlackjackGame) : BlackjackGame :=
  with_players (with_deck g new_deck) (map reset_player (players g)).

(** [BlackjackGame.__init__]; [new_deck] is [Deck()]. *)
Definition new_game (rules : gmap string Z) (new_deck : list Card) : BlackjackGame :=
  mkGame [] [] (mkDealer [] None) rules new_deck WaitingForPlayersState
         (mkStats 0 0 0 0).

(** [SimulationStats.report] *)
Definition report (s : SimulationStats) : gmap string Z :=
  {[ "games_played" := games_played s; "player_wins" := player_wins s;
     "dealer_wins" := dealer_wins s; "draws" := draws s ]}.

(** *** [main] *)

(** [for player in players: game.add_player(player)]; a [KeyError] ends the
    run. *)
Fixpoint add_players (g : BlackjackGame) (ps : list Player) : option BlackjackGame :=
  match ps with
  | [] => Some g
  | p :: rest =>
      match add_player g (Some p) with
      | None => None
      | Some g => add_players g rest
      end
  end.

(** [for _ in range(num_games): game.play_round(); game.reset()].  [rounds]
    holds, for each game to play, the deck as the shuffle of that game leaves
    it; [new_deck] is [Deck()].  The loop of [play_round] is given the six
    rounds that take it to [EndRoundState] from any state it ever leaves. *)
Fixpoint simulate (new_deck : list Card) (rounds : list (list Card)) (g : BlackjackGame)
  : option BlackjackGame :=
  match rounds with
  | [] => Some g
  | shuffled :: rounds =>
      match play_round 6 shuffled g with
      | None => None
      | Some g => simulate new_deck rounds (reset new_deck g)
      end
  end.

(** A Python [int] as an operand of [/]: the integer itself, with the
    exponent 0 and a significand of any length. *)
Definition of_int (z : Z) : spec_float :=
  match z with
  | 0 => S754_zero false
  | Z.pos m => S754_finite false m 0
  | Z.neg m => S754_finite true m 0
  end.

(** [a / b] on two [int]s, the true division: the double nearest to the
    quotient of the two integers, ties to even.  A zero divisor raises
    [ZeroDivisionError], a quotient beyond the doubles [OverflowError]. *)
Definition truediv (a b : Z) : option spec_float :=
  if b =? 0 then None
  else match SFdiv 53 1024 (of_int a) (of_int b) with
       | S754_infinity _ => None
       | quotient => Some quotient
       end.

(** The doubles 0.0 and 1.0. *)
Definition float_zero : spec_float := S754_zero false.
Definition float_one : spec_float := S754_finite false 4503599627370496 (-52).

(** The doubles from 0.0 to 1.0: zero, or [m * 2 ^ e] with [m] at most
    [2 ^ - e]. *)
Definition zero_to_one (x : spec_float) : Prop :=
  match x with
  | S754_zero false => True
  | S754_finite false m e => e <= 0 /\ Z.pos m <= 2 ^ (- e)
  | _ => False
  end.

(** [win_loss_ratio = player_wins / games_played] on the report; a missing key
    raises, and so does the division by zero games. *)
Definition win_loss_ratio (stats : gmap string Z) : option spec_float :=
  match stats !! "games_played", stats !! "player_wins" with
  | Some games_played, Some player_wins => truediv player_wins games_played
  | _, _ => None
  end.

(** The part of [main] between the parsing of the arguments and the printing:
    the game is created, the players are added, the state is set to
    [PlacingBetsState], the games are played and the ratio is computed. *)
Definition main (rules : gmap string Z) (new_deck : list Card) (ps : list Player)
  (rounds : list (list Card)) : option (BlackjackGame * spec_float) :=
  match add_players (new_game rules new_deck) ps with
  | None => None
  | Some g =>
      match simulate new_deck rounds (set_state g PlacingBetsState) with
      | None => None
      | Some g =>
          match win_loss_ratio (report (stats g)) with
          | None => None
          | Some ratio => Some (g, ratio)
          end
      end
  end.

(** *** Notions used in the statements *)

(** The bets whose product with 1.5 a double holds exactly: the significands
    of [b] and of [3 b / 2 = 3 b * 2 ^ -1] stay below [2 ^ 53], so neither the
    conversion of the [int] to a float nor the multiplication rounds. *)
Definition exact_product (b : Z) : Prop := 3 * Z.abs b < 2 ^ 53.

(** What the branches of [settle] decide from the dealer's hand value, the
    player's hand value and the bet: the outcome tag and the amounts paid. *)
Definition verdict (dealer_hand_value player_hand_value bet : Z) : string * list Q :=
  if 21 <? player_hand_value then ("dealer", [])
  else if (21 <? dealer_hand_value) || (dealer_hand_value <? player_hand_value)
       then ("player", [inject_Z (bet * 2)])
  else if player_hand_value <? dealer_hand_value then ("dealer", [])
  else ("draw", [inject_Z bet]).

(** The player as [settle] leaves it. *)
Definition settled (dealer_hand_value : Z) (p : Player) : Player :=
  let v := verdict dealer_hand_value (value (current_hand p)) (bet p) in
  mkPlayer (name p) (current_hand p) (bet p) (insurance p) (blackjack p) (done p)
           (Some v.1) (payouts p ++ v.2).

(** The player as the first loop of [check_blackjack] leaves it. *)
Definition natural_paid (p : Player) : Player :=
  if value (current_hand p) =? 21 then
    set_winner (set_blackjack (payout p (times (bet p) (3 # 2))) true) (Some "player")
  else p.

(** The player as the second loop of [check_blackjack] leaves it. *)
Definition dealer_natural_flagged (p : Player) : Player :=
  if blackjack p then p else set_winner p (Some "dealer").

(** How a player comes out of its turn: with the cards [drawn] at the end of
    its hand and standing.  A player who was done has drawn nothing; every
    card was drawn on the policy's "hit"; and after each card but the last
    the hand was below 21. *)
Definition turn_played (p r : Player) (drawn : list Card) : Prop :=
  r = mkPlayer (name p) (current_hand p ++ drawn) (bet p) (insurance p) (blackjack p)
               true (winner p) (payouts p)
  /\ (is_done p = true -> drawn = [])
  /\ (forall k, (k < length drawn)%nat ->
        decide_action (current_hand p ++ take k drawn) = "hit")
  /\ (forall k, (0 < k < length drawn)%nat ->
        value (current_hand p ++ take k drawn) < 21).

(** The player [r] is [p] some time later at the same table: the name is the
    same, the hand and the payouts have only grown. *)
Definition seat_kept (p r : Player) : Prop :=
  name r = name p
  /\ current_hand p `prefix_of` current_hand r
  /\ payouts p `prefix_of` payouts r.

(** The successor each state's [handle] names in its [set_state]. *)
Definition successor (s : GameState) : GameState :=
  match s with
  | WaitingForPlayersState => PlacingBetsState
  | PlacingBetsState => DealingState
  | DealingState => OfferInsuranceState
  | OfferInsuranceState => PlayersTurnState
  | PlayersTurnState => DealersTurnState
  | DealersTurnState => EndRoundState
  | EndRoundState => PlacingBetsState
  end.

(** The number of handlers between a state and [EndRoundState]. *)
Definition steps_to_end (s : GameState) : nat :=
  match s with
  | WaitingForPlayersState => 6
  | PlacingBetsState => 5
  | DealingState => 4
  | OfferInsuranceState => 3
  | PlayersTurnState => 2
  | DealersTurnState => 1
  | EndRoundState => 0
  end.

(** [len(players) <= max_players] *)
Definition within_limit (g : BlackjackGame) : Prop :=
  exists max_players,
    rules g !! "max_players" = Some max_players
    /\ Z.of_nat (length (players g)) <= max_players.

(** The messages [add_player] reports a rejection with. *)
Definition rejections : list string :=
  ["Invalid player."; "Game is full."; "Game has already started."].

(** One round of the dealer's [while] loop: the policy says hit and
    [dealer_action] deals the card. *)
Definition dealer_draws (g g' : BlackjackGame) : Prop :=
  should_hit (d_current_hand (dealer g)) = true /\ dealer_action g = Some g'.

(** The counters of [b] are at least those of [a]. *)
Definition stats_le (a b : SimulationStats) : Prop :=
  games_played a <= games_played b /\ player_wins a <= player_wins b
  /\ dealer_wins a <= dealer_wins b /\ draws a <= draws b.

End Game.
End Blackjack.

Module HighCard.

Section Game.
(** The card type, its printer and the comparison [a.rank > b.rank] come from
    cardsharp/common, outside the three source files. *)
Context {Card : Type} (show_card : Card -> string) (rank_gt : Card -> Card -> bool).

Record HighCardGameState := mkState {
  rounds_played : Z;
  wins : gmap string Z;
  current_streak : gmap string Z;
  max_streak : gmap string Z
}.

(** [HighCardGameState.__init__] *)
Definition init_state (player_names : list string) : HighCardGameState :=
  let zeros : gmap string Z := list_to_map (map (fun n => (n, 0)) (rev player_names)) in
  mkState 0 zeros zeros zeros.

(** The dictionary handed to [update_state]; a key that is absent is [None]. *)
Record NewState := mkNew {
  new_rounds_played : option Z;
  new_wins : option (gmap string Z);
  new_current_streak : option (gmap string Z);
  new_max_streak : option (gmap string Z)
}.

(** [update_state]: [new_state.get(key, self.key)] for each of the four keys. *)
Definition update_state (st : HighCardGameState) (new_state : NewState)
  : HighCardGameState :=
  mkState (default (rounds_played st) (new_rounds_played new_state))
          (default (wins st) (new_wins new_state))
          (default (current_streak st) (new_current_streak new_state))
          (default (max_streak st) (new_max_streak new_state)).

Record SimplePlayer := mkPlayer {
  name : string;
  hands : list (list Card)
}.

Record HighCardGame := mkGame {
  players : list SimplePlayer;
  deck : list Card;
  io_interface : list string;
  game_state : HighCardGameState
}.

(** Modelled from the spec: [SimplePlayer.reset_hands] of cardsharp/common/actor.py,
    not among the sources; the player is left with one empty hand. *)
Definition reset_hands (p : SimplePlayer) : SimplePlayer := mkPlayer (name p) [[]].

(** [player.hands[0].add_card(card)]; without a first hand the index raises. *)
Definition add_to_first_hand (p : SimplePlayer) (c : Card) : option SimplePlayer :=
  match hands p with
  | [] => None
  | h :: rest => Some (mkPlayer (name p) ((h ++ [c]) :: rest))
  end.

(** [not high_card or drawn_card.rank > high_card.rank] *)
Definition beats (drawn_card : Card) (high_card : option Card) : bool :=
  match high_card with
  | None => true
  | Some high_card => rank_gt drawn_card high_card
  end.

(** The [for player in player_list] loop.  The players are shared objects:
    [player_list] holds the positions of [self.players] in the order the
    shuffle left them, and each visited player is written back in place.  The
    local [winner] is the position of the winning player. *)
Fixpoint draw_loop (player_list : list nat) (g : HighCardGame)
  (high_card : option Card) (winner : option nat)
  : option (HighCardGame * option nat) :=
  match player_list with
  | [] => Some (g, winner)
  | i :: player_list =>
      match players g !! i with
      | None => None
      | Some player =>
          let player := reset_hands player in
          match deck g with
          | [] => None
          | drawn_card :: rest =>
              match add_to_first_hand player drawn_card with
              | None => None
              | Some player =>
                  let g := mkGame (<[i := player]> (players g)) rest
                             (io_interface g ++
                                [name player +:+ " drew " +:+ show_card drawn_card])
                             (game_state g) in
                  if beats drawn_card high_card
                  then draw_loop player_list g (Some drawn_card) (Some i)
                  else draw_loop player_list g high_card winner
              end
          end
      end
  end.

(** [.get(key, 0)] *)
Definition get0 (d : gmap string Z) (key : string) : Z := default 0 (d !! key).

(** [{name: ... for name in d.keys() if name != winner_name}] *)
Definition others (winner_name : string) (d : gmap string Z) : gmap string Z :=
  filter (fun kv => kv.1 <> winner_name) d.

(** The dictionary [play_round] builds for [update_state]. *)
Definition round_update (st : HighCardGameState) (winner_name : string) : NewState :=
  mkNew
    (Some (rounds_played st + 1))
    (Some (<[winner_name := get0 (wins st) winner_name + 1]> (wins st)))
    (Some (<[winner_name := get0 (current_streak st) winner_name + 1]>
             ((fun _ => 0) <$> others winner_name (current_streak st))))
    (Some (<[winner_name := Z.max (get0 (max_streak st) winner_name)
                                  (get0 (current_streak st) winner_name + 1)]>
             (map_imap (fun n _ => Some (get0 (max_streak st) n))
                       (others winner_name (max_streak st))))).

(** [play_round]: [fresh] is the deck after [reset], [player_list] the order
    [random.shuffle] produced.  The result is the winner and the game. *)
Definition play_round (fresh : list Card) (player_list : list nat) (g : HighCardGame)
  : option (option SimplePlayer * HighCardGame) :=
  let g := mkGame (players g) fresh (io_interface g) (game_state g) in
  match draw_loop player_list g None None with
  | None => None
  | Some (g, None) => Some (None, g)
  | Some (g, Some i) =>
      match players g !! i with
      | None => None
      | Some winner =>
          let st := update_state (game_state g) (round_update (game_state g) (name winner)) in
          Some (Some winner, mkGame (players g) (deck g) (io_interface g) st)
      end
  end.

(** [get_state]: the dictionary with all four keys. *)
Definition get_state (st : HighCardGameState) : NewState :=
  mkNew (Some (rounds_played st)) (Some (wins st)) (Some (current_streak st))
        (Some (max_streak st)).

(** [for _ in range(args.rounds): await game.play_round()] of [main].
    [rounds] holds, for each round, the deck after its [reset] and the order
    its shuffle gave. *)
Fixpoint play_rounds (rounds : list (list Card * list nat)) (g : HighCardGame)
  : option HighCardGame :=
  match rounds with
  | [] => Some g
  | (fresh, player_list) :: rounds =>
      match play_round fresh player_list g with
      | None => None
      | Some (_, g) => play_rounds rounds g
      end
  end.

(** *** Notions used in the statements *)

(** The sum of the values of a dictionary. *)
Definition total (d : gmap string Z) : Z := map_fold (fun _ v acc => v + acc) 0 d.

(** In every entry the longest streak is at least the current one, and
    neither is negative. *)
Definition streaks_ordered (st : HighCardGameState) : Prop :=
  forall n, 0 <= get0 (current_streak st) n <= get0 (max_streak st) n.

End Game.
End HighCard.

(** ** A standard deck

    Modelled from the spec: the cards and the hand evaluator of
    cardsharp/common and cardsharp/blackjack/hand.py, which are not among the
    sources.  This instance of the collaborators is the one the examples
    below run on. *)
Module Standard.

Inductive Rank :=
  | Ace | Two | Three | Four | Five | Six | Seven | Eight | Nine | Ten
  | Jack | Queen | King.

Inductive Suit := Hearts | Diamonds | Clubs | Spades.

Record Card := mkCard { rank : Rank; suit : Suit }.

Definition str_rank (r : Rank) : string :=
  match r with
  | Ace => "A" | Two => "2" | Three => "3" | Four => "4" | Five => "5"
  | Six => "6" | Seven => "7" | Eight => "8" | Nine => "9" | Ten => "10"
  | Jack => "J" | Queen => "Q" | King => "K"
  end.

Definition str_suit (s : Suit) : string :=
  match s with
  | Hearts => "Hearts" | Diamonds => "Diamonds" | Clubs => "Clubs" | Spades => "Spades"
  end.

Definition show_card (c : Card) : string := str_rank (rank c) +:+ " of " +:+ str_suit (suit c).

(** Face value with the ace at 1; face cards count 10. *)
Definition hard_value (r : Rank) : Z :=
  match r with
  | Ace => 1 | Two => 2 | Three => 3 | Four => 4 | Five => 5 | Six => 6
  | Seven => 7 | Eight => 8 | Nine => 9 | Ten | Jack | Queen | King => 10
  end.

Definition is_ace (c : Card) : bool :=
  match rank c with Ace => true | _ => false end.

(** Add 10 per ace as long as the total stays at or below 21. *)
Fixpoint soften (aces : nat) (total : Z) : Z :=
  match aces with
  | O => total
  | S aces => if total + 10 <=? 21 then soften aces (total + 10) else total
  end.

Definition value (hand : list Card) : Z :=
  soften (length (filter (fun c => is_ace c = true) hand))
         (fold_right Z.add 0 (map (fun c => hard_value (rank c)) hand)).

(** The dealer's visible card is the first one dealt. *)
Definition has_ace (hand : list Card) : bool :=
  match hand with
  | c :: _ => is_ace c
  | [] => false
  end.

Definition should_hit (hand : list Card) : bool := value hand <? 17.

(** A sample player: draws below 17. *)
Definition decide_action (hand : list Card) : string :=
  if value hand <? 17 then "hit" else "stand".

(** High card: the order of the ranks, the ace high. *)
Definition rank_order (r : Rank) : Z :=
  match r with
  | Ace => 14 | King => 13 | Queen => 12 | Jack => 11 | other => hard_value other
  end.

Definition rank_gt (a b : Card) : bool := rank_order (rank b) <? rank_order (rank a).

#[global] Instance standard : Blackjack.Collaborators := {|
  Blackjack.Card := Card;
  Blackjack.show_card := show_card;
  Blackjack.value := value;
  Blackjack.has_ace := has_ace;
  Blackjack.should_hit := should_hit;
  Blackjack.decide_action := decide_action
|}.

End Standard.

(** ** Sample tables

    The games the examples run on: Bob alone at the table, before any bet. *)
Module Examples.
Import Blackjack.

Definition card (r : Standard.Rank) (s : Standard.Suit) : Card := Standard.mkCard r s.

Definition bob : Player := mkPlayer "Bob" [] 0 0 false false None [].

Definition table : BlackjackGame :=
  mkGame [bob] [] (mkDealer [] None) {[ "max_players" := 6 ]} [] PlacingBetsState
         (mkStats 0 0 0 0).

(** Cards go to Bob, the dealer, Bob, the dealer; the rest stays in the deck. *)

(** Bob: A K.  Dealer: 9 7, then draws the 2. *)
Definition deck_natural : list Card :=
  [card Standard.Ace Standard.Spades; card Standard.Nine Standard.Hearts;
   card Standard.King Standard.Spades; card Standard.Seven Standard.Hearts;
   card Standard.Two Standard.Clubs; card Standard.Five Standard.Clubs].

(** Bob: A K.  Dealer: A K. *)
Definition deck_both_natural : list Card :=
  [card Standard.Ace Standard.Spades; card Standard.Ace Standard.Hearts;
   card Standard.King Standard.Spades; card Standard.King Standard.Hearts;
   card Standard.Two Standard.Clubs; card Standard.Five Standard.Clubs].

(** Bob: 10 9.  Dealer: A K. *)
Definition deck_dealer_natural : list Card :=
  [card Standard.Ten Standard.Spades; card Standard.Ace Standard.Hearts;
   card Standard.Nine Standard.Spades; card Standard.King Standard.Hearts;
   card Standard.Two Standard.Clubs; card Standard.Five Standard.Clubs].

(** Bob: 10 6, draws the 4 and stands at 20.  Dealer: 10 6, draws the 5. *)
Definition deck_sixteen : list Card :=
  [card Standard.Ten Standard.Spades; card Standard.Ten Standard.Hearts;
   card Standard.Six Standard.Spades; card Standard.Six Standard.Hearts;
   card Standard.Four Standard.Clubs; card Standard.Five Standard.Clubs].

(** The table with a given state and the given hands already dealt. *)
Definition seated (state : GameState) (hand dealer_hand rest : list Card) : BlackjackGame :=
  mkGame [mkPlayer "Bob" hand 10 0 false false None []] [] (mkDealer dealer_hand None)
         {[ "max_players" := 6 ]} rest state (mkStats 0 0 0 0).

(** The end of a round: Bob holds A K, the dealer 9 7 2. *)
Definition natural_at_end : BlackjackGame :=
  seated EndRoundState
         [card Standard.Ace Standard.Spades; card Standard.King Standard.Spades]
         [card Standard.Nine Standard.Hearts; card Standard.Seven Standard.Hearts;
          card Standard.Two Standard.Clubs] [].

(** The end of a round: Bob holds 10 9, the dealer 10 8. *)
Definition nineteen_at_end : BlackjackGame :=
  seated EndRoundState
         [card Standard.Ten Standard.Spades; card Standard.Nine Standard.Spades]
         [card Standard.Ten Standard.Hearts; card Standard.Eight Standard.Hearts] [].

(** Just dealt: Bob holds A K and so does the dealer. *)
Definition both_natural_dealt : BlackjackGame :=
  seated DealingState
         [card Standard.Ace Standard.Spades; card Standard.King Standard.Spades]
         [card Standard.Ace Standard.Hearts; card Standard.King Standard.Hearts] [].

(** The insurance offer: Bob holds 10 9, the dealer A K. *)
Definition dealer_natural_offer : BlackjackGame :=
  seated OfferInsuranceState
         [card Standard.Ten Standard.Spades; card Standard.Nine Standard.Spades]
         [card Standard.Ace Standard.Hearts; card Standard.King Standard.Hearts] [].

(** The dealer's turn: the dealer holds 10 6, the deck 4 5. *)
Definition dealer_at_sixteen : BlackjackGame :=
  seated DealersTurnState
         [card Standard.Ten Standard.Spades; card Standard.Six Standard.Spades]
         [card Standard.Ten Standard.Hearts; card Standard.Six Standard.Hearts]
         [card Standard.Four Standard.Clubs; card Standard.Five Standard.Clubs].

(** A table for one, taken, still waiting for players. *)
Definition full_table : BlackjackGame :=
  mkGame [bob] [] (mkDealer [] None) {[ "max_players" := 1 ]} [] WaitingForPlayersState
         (mkStats 0 0 0 0).

Definition ann : Player := mkPlayer "Ann" [] 0 0 false false None [].

(** Just dealt: Bob holds A K, the dealer 9 7. *)
Definition natural_dealt : BlackjackGame :=
  seated DealingState
         [card Standard.Ace Standard.Spades; card Standard.King Standard.Spades]
         [card Standard.Nine Standard.Hearts; card Standard.Seven Standard.Hearts]
         [card Standard.Two Standard.Clubs; card Standard.Five Standard.Clubs].

(** Bob to move on 10 6, the dealer holding 10 6, the deck 4 5. *)
Definition bob_to_move : BlackjackGame :=
  seated PlayersTurnState
         [card Standard.Ten Standard.Spades; card Standard.Six Standard.Spades]
         [card Standard.Ten Standard.Hearts; card Standard.Six Standard.Hearts]
         [card Standard.Four Standard.Clubs; card Standard.Five Standard.Clubs].

(** A new game for one player. *)
Definition table_for_one : BlackjackGame := new_game {[ "max_players" := 1 ]} [].

(** Ann and Bob at the table, before any bet. *)
Definition table_of_two : BlackjackGame :=
  mkGame [ann; bob] [] (mkDealer [] None) {[ "max_players" := 6 ]} [] PlacingBetsState
         (mkStats 0 0 0 0).

(** Cards go to Ann, Bob, the dealer, and once more.  Ann: A K.  Bob: A Q.
    Dealer: A K. *)
Definition deck_all_natural : list Card :=
  [card Standard.Ace Standard.Diamonds; card Standard.Ace Standard.Spades;
   card Standard.Ace Standard.Hearts;
   card Standard.King Standard.Diamonds; card Standard.Queen Standard.Spades;
   card Standard.King Standard.Hearts;
   card Standard.Two Standard.Clubs; card Standard.Five Standard.Clubs].

End Examples.

Module HighCardExamples.

Definition alice : @HighCard.SimplePlayer Standard.Card := HighCard.mkPlayer "Alice" [].
Definition bob : @HighCard.SimplePlayer Standard.Card := HighCard.mkPlayer "Bob" [].

(** Alice and Bob before their first round. *)
Definition game : @HighCard.HighCardGame Standard.Card :=
  HighCard.mkGame [alice; bob] [] [] (HighCard.init_state ["Alice"; "Bob"]).

(** Bob has won the last two rounds. *)
Definition bob_on_a_streak : @HighCard.HighCardGame Standard.Card :=
  HighCard.mkGame [alice; bob] [] []
    (HighCard.mkState 5 {[ "Alice" := 2; "Bob" := 3 ]} {[ "Alice" := 0; "Bob" := 2 ]}
                      {[ "Alice" := 2; "Bob" := 2 ]}).

(** The first card is the king, the second the five. *)
Definition king_then_five : list Standard.Card :=
  [Standard.mkCard Standard.King Standard.Spades;
   Standard.mkCard Standard.Five Standard.Hearts].

End HighCardExamples.

(** * Properties *)

(** ** Loops over the players *)
Section ForEachFacts.
Context {S P : Type}.
Implicit Types (I : S -> Prop) (R : P -> P -> Prop).

(** An invariant of the threaded state and a relation between a player
    before and after the body carry over to the whole loop. *)
Lemma for_each_inv I R (body : S -> P -> S * P) :
  (forall s p, I s -> I (body s p).1 /\ R p (body s p).2) ->
  forall ps s, I s ->
    I (for_each body s ps).1 /\ Forall2 R ps (for_each body s ps).2.
Proof.
  intros Hbody ps. induction ps as [|p ps IH]; intros s Hs; simpl.
  - split; [assumption | constructor].
  - destruct (Hbody s p Hs) as [Hs1 Hp].
    destruct (body s p) as [s1 p1]; simpl in *.
    destruct (IH s1 Hs1) as [Hs2 Hps].
    destruct (for_each body s1 ps) as [s2 ps2]; simpl in *.
    split; [assumption | constructor; assumption].
Qed.

Lemma for_each_opt_inv I R (body : S -> P -> option (S * P)) :
  (forall s p s' p', I s -> body s p = Some (s', p') -> I s' /\ R p p') ->
  forall ps s s' ps', I s -> for_each_opt body s ps = Some (s', ps') ->
    I s' /\ Forall2 R ps ps'.
Proof.
  intros Hbody ps. induction ps as [|p ps IH]; intros s s' ps' Hs Hrun; simpl in Hrun.
  - inversion Hrun; subst. split; [assumption | constructor].
  - destruct (body s p) as [[s1 p1]|] eqn:Eb; [|discriminate].
    destruct (Hbody _ _ _ _ Hs Eb) as [Hs1 Hp].
    destruct (for_each_opt body s1 ps) as [[s2 ps2]|] eqn:Er; [|discriminate].
    inversion Hrun; subst.
    destruct (IH _ _ _ Hs1 Er) as [Hs2 Hps].
    split; [assumption | constructor; assumption].
Qed.

(** When the body treats the player the same way whatever the threaded
    state, the loop maps that treatment over the players. *)
Lemma for_each_map (f : P -> P) (body : S -> P -> S * P) :
  (forall s p, (body s p).2 = f p) ->
  forall ps s, (for_each body s ps).2 = map f ps.
Proof.
  intros Hbody ps. induction ps as [|p ps IH]; intros s; simpl; [reflexivity|].
  specialize (Hbody s p). destruct (body s p) as [s1 p1]; simpl in *.
  specialize (IH s1). destruct (for_each body s1 ps) as [s2 ps2]; simpl in *.
  congruence.
Qed.

Lemma for_each_length (body : S -> P -> S * P) ps s :
  length (for_each body s ps).2 = length ps.
Proof.
  destruct (for_each_inv (fun _ => True) (fun _ _ => True) body
              (fun _ _ _ => conj Logic.I Logic.I) ps s Logic.I) as [_ HF].
  symmetry. exact (Forall2_length _ _ _ HF).
Qed.
End ForEachFacts.

Module BlackjackFacts.
Import Blackjack.

Section Settlement.
Context `{Collaborators}.

(** *** Settlement at the end of the round *)

Lemma settle_settled d g p : (settle d g p).2 = settled d p.
Proof.
  unfold settle, settled, verdict.
  destruct (21 <? value (current_hand p)); simpl.
  - unfold set_winner; simpl. by rewrite app_nil_r.
  - destruct ((21 <? d) || (d <? value (current_hand p))); simpl; [reflexivity|].
    destruct (value (current_hand p) <? d); simpl; [|reflexivity].
    unfold set_winner; simpl. by rewrite app_nil_r.
Qed.

Lemma calculate_winner_players g :
  players (calculate_winner g)
  = map (settled (value (d_current_hand (dealer g)))) (players g).
Proof.
  unfold calculate_winner.
  set (d := value (d_current_hand (dealer g))).
  set (g1 := output (output g _) _).
  change (players g) with (players g1).
  pose proof (for_each_map (settled d) (settle d) (settle_settled d) (players g1) g1) as Hm.
  destruct (for_each (settle d) g1 (players g1)) as [g2 ps]. exact Hm.
Qed.

(** Claim C2.  Every player is settled by [calculate_winner] against the
    dealer's final hand: a player over 21 is tagged dealer-wins and paid
    nothing; otherwise, when the dealer is over 21 or the player's value is
    strictly greater, the tag is player-wins and the payout is twice the bet;
    otherwise, when the player's value is strictly less, the tag is
    dealer-wins and nothing is paid; otherwise (equal values, nobody over 21)
    the tag is draw and the payout is the bet. *)
Theorem calculate_winner_outcome (g : BlackjackGame) (i : nat) (p : Player) :
  players g !! i = Some p ->
  exists r,
    players (calculate_winner g) !! i = Some r
    /\ name r = name p /\ bet r = bet p /\ current_hand r = current_hand p
    /\ let v := value (current_hand p) in
       let d := value (d_current_hand (dealer g)) in
       (21 < v -> winner r = Some "dealer" /\ payouts r = payouts p)
       /\ (v <= 21 -> 21 < d \/ d < v ->
           winner r = Some "player"
           /\ payouts r = payouts p ++ [inject_Z (bet p * 2)])
       /\ (v <= 21 -> d <= 21 -> v < d ->
           winner r = Some "dealer" /\ payouts r = payouts p)
       /\ (v <= 21 -> d <= 21 -> v = d ->
           winner r = Some "draw" /\ payouts r = payouts p ++ [inject_Z (bet p)]).
Proof.
  intros Hp. exists (settled (value (d_current_hand (dealer g))) p).
  rewrite calculate_winner_players, list_lookup_fmap, Hp.
  do 4 (split; [reflexivity|]).
  cbv zeta. unfold settled, verdict. simpl.
  destruct (Z.ltb_spec 21 (value (current_hand p))),
           (Z.ltb_spec 21 (value (d_current_hand (dealer g)))),
           (Z.ltb_spec (value (d_current_hand (dealer g))) (value (current_hand p))),
           (Z.ltb_spec (value (current_hand p)) (value (d_current_hand (dealer g))));
    simpl; rewrite ?app_nil_r; repeat split; intros;
    repeat match goal with Hor : _ \/ _ |- _ => destruct Hor end;
    first [reflexivity | lia].
Qed.

(** Claim C1, as amended.  [calculate_winner] settles every seated player,
    whether or not the dealing phase has flagged the player: each player
    leaves it with exactly one outcome tag, the one the comparison with the
    dealer's final hand gives (it replaces a tag set while dealing), and is
    paid at most once in that pass; tag and payment are decided by the two
    hand values and the bet alone. *)
Theorem calculate_winner_settles_everyone (g : BlackjackGame) (i : nat) (p : Player) :
  players g !! i = Some p ->
  exists r,
    players (calculate_winner g) !! i = Some r
    /\ let v := verdict (value (d_current_hand (dealer g)))
                        (value (current_hand p)) (bet p) in
       winner r = Some v.1
       /\ v.1 ∈ ["player"; "dealer"; "draw"]
       /\ payouts r = payouts p ++ v.2
       /\ (length v.2 <= 1)%nat.
Proof.
  intros Hp. exists (settled (value (d_current_hand (dealer g))) p).
  rewrite calculate_winner_players, list_lookup_fmap, Hp. simpl.
  repeat split; unfold verdict;
    repeat match goal with
    | |- context [if ?c then _ else _] => destruct c; simpl
    end; try lia; set_solver.
Qed.

(** *** The statistics *)

Lemma winner_is_spec (tag : string) (p : Player) :
  winner_is tag p = true <-> winner p = Some tag.
Proof.
  unfold winner_is. destruct (winner p) as [w|].
  - rewrite String.eqb_eq. split; congruence.
  - split; discriminate.
Qed.

Lemma existsb_winner_is (tag : string) (ps : list Player) :
  existsb (winner_is tag) ps = true <-> Exists (fun p => winner p = Some tag) ps.
Proof.
  induction ps as [|p ps IH]; simpl.
  - rewrite Exists_nil. split; [discriminate | tauto].
  - rewrite Exists_cons, orb_true_iff, winner_is_spec, IH. reflexivity.
Qed.

Lemma incr_if_spec (b : bool) (n : Z) (P : Prop) :
  (b = true <-> P) -> (P -> incr_if b n = n + 1) /\ (~ P -> incr_if b n = n).
Proof.
  intros Hb. destruct b; simpl; split; intros HP; try reflexivity.
  - exfalso. apply HP, Hb. reflexivity.
  - apply Hb in HP. discriminate.
Qed.

(** Claim C9.  One call of [SimulationStats.update] adds exactly 1 to
    [games_played]; it adds 1 to [player_wins] when some player carries the
    tag "player" and nothing otherwise, and likewise for [dealer_wins] with
    "dealer" and for [draws] with "draw" (one increment for each outcome that
    occurs, however many players share it); afterwards every player's winner
    tag is [None]. *)
Theorem update_counts (g : BlackjackGame) :
  let tagged tag := Exists (fun p => winner p = Some tag) (players g) in
  let s := stats g in
  let s' := stats (update g) in
  games_played s' = games_played s + 1
  /\ ((tagged "player" -> player_wins s' = player_wins s + 1)
      /\ (~ tagged "player" -> player_wins s' = player_wins s))
  /\ ((tagged "dealer" -> dealer_wins s' = dealer_wins s + 1)
      /\ (~ tagged "dealer" -> dealer_wins s' = dealer_wins s))
  /\ ((tagged "draw" -> draws s' = draws s + 1)
      /\ (~ tagged "draw" -> draws s' = draws s))
  /\ Forall (fun p => winner p = None) (players (update g))
  /\ map name (players (update g)) = map name (players g).
Proof.
  destruct g as [ps io d r dk st [gp pw dw dr]]. simpl.
  split; [reflexivity|].
  split; [apply incr_if_spec, existsb_winner_is|].
  split; [apply incr_if_spec, existsb_winner_is|].
  split; [apply incr_if_spec, existsb_winner_is|].
  split.
  - apply Forall_fmap, Forall_true. reflexivity.
  - rewrite <- list_fmap_compose. reflexivity.
Qed.


End Settlement.


(** Two winners and one loser: each counter moves by one. *)
Example update_three_players :
  stats (update (mkGame [mkPlayer "Ann" [] 10 0 false true (Some "player") [20%Q];
                         mkPlayer "Bob" [] 10 0 false true (Some "player") [20%Q];
                         mkPlayer "Cy" [] 10 0 false true (Some "dealer") []]
                        [] (mkDealer [] None) ∅ ([] : list Standard.Card) PlacingBetsState
                        (mkStats 7 3 2 1)))
  = mkStats 8 4 3 1.
Proof. reflexivity. Qed.

(** ** What the handlers leave alone *)
Section Handlers.
Context `{Collaborators}.

(** The rules and the statistics are the ones of [g]. *)
Local Abbreviation kept g := (fun s : BlackjackGame => rules s = rules g /\ stats s = stats g).

Ltac keep :=
  intros; simpl in *;
  repeat match goal with
  | H : _ /\ _ |- _ => destruct H
  | H : Some _ = Some _ |- _ => inversion H; subst; clear H
  | H : None = Some _ |- _ => discriminate H
  | |- context [if ?c then _ else _] => destruct c; simpl
  | H : context [match ?c with _ => _ end] |- _ => destruct c eqn:?; simpl in *
  end;
  repeat split; simpl; try assumption; try reflexivity; try congruence.

Lemma place_bet_kept g amount s p :
  kept g s -> kept g (PlacingBetsState_place_bet amount s p).1.
Proof. unfold PlacingBetsState_place_bet. keep. Qed.

Lemma deal_to_player_kept g s p s' p' :
  kept g s -> deal_to_player s p = Some (s', p') ->
  kept g s' /\ length (deck s) = S (length (deck s')).
Proof. unfold deal_to_player, deal_card. keep. Qed.

Lemma check_player_blackjack_kept g s p :
  kept g s -> kept g (check_player_blackjack s p).1.
Proof. unfold check_player_blackjack. keep. Qed.

Lemma offer_insurance_kept g s p :
  kept g s -> kept g (offer_insurance s p).1.
Proof. unfold offer_insurance. keep. Qed.

Lemma settle_kept g d s p : kept g s -> kept g (settle d s p).1.
Proof. unfold settle. keep. Qed.

Lemma player_loop_kept cards :
  forall g p g' p', player_loop cards g p = Some (g', p') ->
    rules g' = rules g /\ stats g' = stats g.
Proof.
  induction cards as [|card cards IH]; intros g p g' p' Hrun; simpl in Hrun.
  - keep.
  - destruct (is_done p); [keep|].
    destruct (String.eqb _ "hit").
    + destruct (is_busted _); [keep|].
      destruct (_ =? 21); [keep|].
      apply IH in Hrun. keep.
    + keep.
Qed.

Lemma player_turn_kept g s p s' p' :
  kept g s -> player_turn s p = Some (s', p') -> kept g s'.
Proof.
  intros [Hr Hs] Hrun. apply player_loop_kept in Hrun as [Hr' Hs']. split; congruence.
Qed.

Lemma dealer_loop_kept cards :
  forall g g', dealer_loop cards g = Some g' ->
    rules g' = rules g /\ stats g' = stats g /\ players g' = players g.
Proof.
  induction cards as [|card cards IH]; intros g g' Hrun; simpl in Hrun.
  - keep.
  - destruct (should_hit _); [|keep].
    apply IH in Hrun. keep.
Qed.

(** *** The blackjack check after the deal *)

(** The players holding the blackjack flag. *)
Local Abbreviation naturals ps := (filter (fun p : Player => blackjack p = true) ps).

Lemma check_player_blackjack_player s p :
  (check_player_blackjack s p).2 = natural_paid p.
Proof. unfold check_player_blackjack, natural_paid. by destruct (_ =? 21). Qed.

Lemma check_dealer_blackjack_loop ps :
  forall g b,
    let r := for_each check_dealer_blackjack (g, b) ps in
    rules r.1.1 = rules g /\ dealer r.1.1 = dealer g
    /\ current_state r.1.1 = current_state g
    /\ stats r.1.1 = mkStats (games_played (stats g)) (player_wins (stats g))
                             (dealer_wins (stats g))
                             (draws (stats g) + Z.of_nat (length (naturals ps)))
    /\ r.2 = map dealer_natural_flagged ps.
Proof.
  induction ps as [|p ps IH]; intros g b; simpl.
  - rewrite Z.add_0_r. by destruct g as [? ? ? ? ? ? []].
  - unfold dealer_natural_flagged at 1. rewrite filter_cons.
    destruct (blackjack p) eqn:Eb; simpl.
    + specialize (IH (with_stats g (add_draw (stats g))) false).
      destruct (for_each check_dealer_blackjack _ ps) as [[g2 b2] ps2].
      simpl in *. destruct IH as (-> & -> & -> & -> & ->).
      repeat split. f_equal. lia.
    + specialize (IH g b).
      destruct (for_each check_dealer_blackjack _ ps) as [[g2 b2] ps2].
      simpl in *. destruct IH as (-> & -> & -> & -> & ->).
      repeat split.
Qed.

(** [check_blackjack], player by player, and what it does to the counters. *)
Lemma check_blackjack_effect g :
  let g' := check_blackjack g in
  let dealer_natural := value (d_current_hand (dealer g)) =? 21 in
  players g' = (if dealer_natural
                then map dealer_natural_flagged (map natural_paid (players g))
                else map natural_paid (players g))
  /\ rules g' = rules g /\ current_state g' = current_state g
  /\ d_current_hand (dealer g') = d_current_hand (dealer g)
  /\ stats g' = mkStats (games_played (stats g)) (player_wins (stats g))
                        (dealer_wins (stats g))
                        (draws (stats g)
                         + (if dealer_natural
                            then Z.of_nat (length (naturals (players g')))
                            else 0)).
Proof.
  unfold check_blackjack.
  pose proof (for_each_map natural_paid check_player_blackjack
                check_player_blackjack_player (players g) g) as Hps.
  pose proof (for_each_inv (fun s => rules s = rules g /\ stats s = stats g
                                     /\ dealer s = dealer g
                                     /\ current_state s = current_state g)
                (fun _ _ => True) check_player_blackjack) as Hinv.
  destruct (Hinv) with (ps := players g) (s := g) as [(Hr & Hs & Hd & Hst) _];
    [|repeat split|].
  { intros s p (? & ? & ? & ?). unfold check_player_blackjack.
    destruct (_ =? 21); simpl; repeat split; assumption. }
  clear Hinv.
  destruct (for_each check_player_blackjack g (players g)) as [g1 ps1].
  simpl in Hps, Hr, Hs, Hd, Hst. subst ps1. simpl.
  rewrite Hd. destruct (value (d_current_hand (dealer g)) =? 21).
  - pose proof (check_dealer_blackjack_loop (map natural_paid (players g))
                  (output (with_players g1 (map natural_paid (players g)))
                          "Dealer got a blackjack!") true) as Hloop.
    simpl in Hloop.
    destruct (for_each check_dealer_blackjack _ _) as [[g2 b2] ps2].
    simpl in Hloop. destruct Hloop as (Hr2 & Hd2 & Hst2 & Hs2 & ->).
    assert (Hnat : length (naturals (map dealer_natural_flagged
                                         (map natural_paid (players g))))
                   = length (naturals (map natural_paid (players g)))).
    { generalize (map natural_paid (players g)). intros l.
      induction l as [|p l IH]; [reflexivity|].
      rewrite fmap_cons, !filter_cons.
      assert (Hflag : blackjack (dealer_natural_flagged p) = blackjack p)
        by (unfold dealer_natural_flagged; by destruct (blackjack p) eqn:Eb).
      destruct (decide (blackjack (dealer_natural_flagged p) = true)),
               (decide (blackjack p = true)); simpl;
        first [congruence | f_equal; exact IH | exact IH]. }
    destruct b2; simpl; rewrite Hnat, Hs2, Hr2, Hd2, Hst2, Hs, Hd;
      repeat split; congruence.
  - simpl. rewrite Z.add_0_r. repeat split; try congruence.
    rewrite Hs. by destruct (stats g).
Qed.

(** *** Each handler: rules, seats, counters and the state it leaves *)

Lemma for_each_kept (body : BlackjackGame -> Player -> BlackjackGame * Player) g :
  (forall s p, kept g s -> kept g (body s p).1) ->
  let r := for_each body g (players g) in
  rules r.1 = rules g /\ stats r.1 = stats g /\ length r.2 = length (players g).
Proof.
  intros Hbody.
  destruct (for_each_inv (kept g) (fun _ _ => True) body) with (ps := players g) (s := g)
    as [[Hr Hs] _]; [by split; [apply Hbody|] | by split |].
  repeat split; try assumption. apply for_each_length.
Qed.

Lemma for_each_opt_kept (body : BlackjackGame -> Player -> option (BlackjackGame * Player))
  g s' ps' :
  (forall s p s1 p1, kept g s -> body s p = Some (s1, p1) -> kept g s1) ->
  for_each_opt body g (players g) = Some (s', ps') ->
  rules s' = rules g /\ stats s' = stats g /\ length ps' = length (players g).
Proof.
  intros Hbody Hrun.
  destruct (for_each_opt_inv (kept g) (fun _ _ => True) body) with (1 := fun s p s1 p1 Hs Hb => conj (Hbody s p s1 p1 Hs Hb) Logic.I) (3 := Hrun)
    as [[Hr Hs] HF]; [by split|].
  repeat split; try assumption. symmetry. exact (Forall2_length _ _ _ HF).
Qed.

Lemma PlacingBetsState_handle_effect g :
  let g' := PlacingBetsState_handle g in
  rules g' = rules g /\ stats g' = stats g
  /\ length (players g') = length (players g)
  /\ current_state g' = DealingState.
Proof.
  unfold PlacingBetsState_handle.
  pose proof (for_each_kept (PlacingBetsState_place_bet 10) g
                (place_bet_kept g 10)) as Hk.
  destruct (for_each _ g (players g)) as [g1 ps]. simpl in *. tauto.
Qed.

Lemma deal_pass_effect g g' :
  deal_pass g = Some g' ->
  rules g' = rules g /\ stats g' = stats g
  /\ length (players g') = length (players g)
  /\ current_state g' = current_state g.
Proof.
  unfold deal_pass. intros Hrun.
  destruct (for_each_opt deal_to_player g (players g)) as [[g1 ps]|] eqn:Eloop;
    [|discriminate].
  pose proof (for_each_opt_inv
                (fun s => rules s = rules g /\ stats s = stats g
                          /\ current_state s = current_state g)
                (fun _ _ => True) deal_to_player) as Hinv.
  destruct Hinv with (3 := Eloop) as [(Hr & Hs & Hst) HF]; [|repeat split|].
  { intros s p s1 p1 (? & ? & ?). unfold deal_to_player, deal_card.
    destruct (deck s); [discriminate|]. intros [= <- <-]. simpl. tauto. }
  apply Forall2_length in HF.
  revert Hrun. unfold deal_card. simpl.
  destruct (deck g1); [discriminate|]. intros [= <-]. simpl. repeat split; congruence.
Qed.

Lemma DealingState_handle_effect shuffled g g' :
  DealingState_handle shuffled g = Some g' ->
  rules g' = rules g
  /\ length (players g') = length (players g)
  /\ current_state g' = OfferInsuranceState
  /\ stats g' = mkStats (games_played (stats g)) (player_wins (stats g))
                        (dealer_wins (stats g))
                        (draws (stats g)
                         + (if value (d_current_hand (dealer g')) =? 21
                            then Z.of_nat (length (naturals (players g')))
                            else 0)).
Proof.
  unfold DealingState_handle, DealingState_deal. intros Hrun.
  destruct (deal_pass (with_deck g shuffled)) as [g1|] eqn:E1; [|discriminate].
  destruct (deal_pass g1) as [g2|] eqn:E2; [|discriminate].
  injection Hrun as <-.
  apply deal_pass_effect in E1 as (Hr1 & Hs1 & Hl1 & Hst1).
  apply deal_pass_effect in E2 as (Hr2 & Hs2 & Hl2 & Hst2).
  destruct (check_blackjack_effect g2) as (Hps & Hr & Hst & Hd & Hs).
  simpl in *. rewrite Hd, Hs, Hr, Hs2, Hs1, Hr2, Hr1. repeat split.
  rewrite Hps. destruct (_ =? 21); rewrite ?length_map; congruence.
Qed.

Lemma OfferInsuranceState_handle_effect g g' :
  OfferInsuranceState_handle g = Some g' ->
  rules g' = rules g /\ stats g' = stats g
  /\ length (players g') = length (players g)
  /\ current_state g' = PlayersTurnState.
Proof.
  unfold OfferInsuranceState_handle.
  pose proof (for_each_kept offer_insurance g (offer_insurance_kept g)) as Hk.
  destruct (for_each offer_insurance g (players g)) as [g1 ps]. simpl in *.
  destruct (d_current_hand (dealer g1)); [discriminate|]. intros [= <-]. simpl. tauto.
Qed.

Lemma PlayersTurnState_handle_effect g g' :
  PlayersTurnState_handle g = Some g' ->
  rules g' = rules g /\ stats g' = stats g
  /\ length (players g') = length (players g)
  /\ current_state g' = DealersTurnState.
Proof.
  unfold PlayersTurnState_handle.
  destruct (for_each_opt player_turn g (players g)) as [[g1 ps]|] eqn:Eloop;
    [|discriminate].
  apply for_each_opt_kept in Eloop; [|apply player_turn_kept].
  intros [= <-]. simpl. tauto.
Qed.

Lemma DealersTurnState_handle_effect g g' :
  DealersTurnState_handle g = Some g' ->
  rules g' = rules g /\ stats g' = stats g
  /\ length (players g') = length (players g)
  /\ current_state g' = EndRoundState.
Proof.
  unfold DealersTurnState_handle.
  destruct (dealer_loop (deck g) g) as [g1|] eqn:Eloop; [|discriminate].
  apply dealer_loop_kept in Eloop as (? & ? & ?).
  intros [= <-]. simpl. repeat split; congruence.
Qed.

Lemma calculate_winner_effect g :
  let g' := calculate_winner g in
  rules g' = rules g /\ stats g' = stats g /\ current_state g' = PlacingBetsState.
Proof.
  unfold calculate_winner.
  set (d := value _). set (g1 := output (output g _) _).
  pose proof (for_each_kept (settle d) g1 (settle_kept g1 d)) as Hk.
  change (players g) with (players g1).
  destruct (for_each (settle d) g1 (players g1)) as [g2 ps]. simpl in *. tauto.
Qed.

Lemma EndRoundState_handle_effect g :
  let g' := EndRoundState_handle g in
  rules g' = rules g
  /\ length (players g') = length (players g)
  /\ current_state g' = PlacingBetsState
  /\ games_played (stats g') = games_played (stats g) + 1
  /\ player_wins (stats g) <= player_wins (stats g') <= player_wins (stats g) + 1
  /\ dealer_wins (stats g) <= dealer_wins (stats g') <= dealer_wins (stats g) + 1
  /\ draws (stats g) <= draws (stats g') <= draws (stats g) + 1.
Proof.
  unfold EndRoundState_handle.
  destruct (calculate_winner_effect g) as (Hr & Hs & Hst).
  pose proof (calculate_winner_players g) as Hps.
  apply (f_equal length) in Hps. rewrite length_map in Hps.
  destruct (calculate_winner g) as [ps io d r dk st [gp pw dw dr]].
  simpl in *. subst. rewrite length_map. rewrite <- Hs. simpl.
  repeat split; try assumption; try reflexivity;
    unfold incr_if;
    repeat match goal with |- context [if ?c then _ else _] => destruct c end; lia.
Qed.

(** *** The round as a whole *)

(** What holds before the [while] loop of [play_round], survives an [output]
    and survives every handler called outside [EndRoundState], holds when the
    loop is left; the loop is left in [EndRoundState]. *)
Lemma play_round_loop_inv (I : BlackjackGame -> Prop) shuffled :
  (forall g msg, I g -> I (output g msg)) ->
  (forall g g', current_state g <> EndRoundState -> I g ->
                handle shuffled g = Some g' -> I g') ->
  forall fuel g g', I g -> play_round_loop fuel shuffled g = Some g' ->
    I g' /\ current_state g' = EndRoundState.
Proof.
  intros Hout Hstep fuel. induction fuel as [|fuel IH]; intros g g' Hg Hrun.
  - simpl in Hrun. destruct (current_state g) eqn:Est; try discriminate.
    injection Hrun as <-. by split.
  - simpl in Hrun. destruct (current_state g) eqn:Est;
      try (injection Hrun as <-; by split);
      (destruct (handle shuffled (output g _)) as [g1|] eqn:Eh; [|discriminate];
       apply (IH g1 g'); [|assumption];
       eapply Hstep; [|apply Hout, Hg|exact Eh]; simpl; congruence).
Qed.

(** The effect of any handler, state by state. *)
Lemma handle_effect shuffled g g' :
  handle shuffled g = Some g' ->
  rules g' = rules g
  /\ length (players g') = length (players g)
  /\ (current_state g <> WaitingForPlayersState ->
      current_state g' = successor (current_state g))
  /\ (current_state g = EndRoundState ->
      games_played (stats g') = games_played (stats g) + 1
      /\ player_wins (stats g) <= player_wins (stats g') <= player_wins (stats g) + 1
      /\ dealer_wins (stats g) <= dealer_wins (stats g') <= dealer_wins (stats g) + 1
      /\ draws (stats g) <= draws (stats g') <= draws (stats g) + 1)
  /\ (current_state g <> EndRoundState ->
      games_played (stats g') = games_played (stats g)
      /\ player_wins (stats g') = player_wins (stats g)
      /\ dealer_wins (stats g') = dealer_wins (stats g))
  /\ (current_state g = DealingState ->
      draws (stats g')
      = draws (stats g)
        + (if value (d_current_hand (dealer g')) =? 21
           then Z.of_nat (length (naturals (players g')))
           else 0))
  /\ (current_state g <> EndRoundState -> current_state g <> DealingState ->
      draws (stats g') = draws (stats g)).
Proof.
  unfold handle. intros Hrun.
  destruct (current_state g) eqn:Est.
  - injection Hrun as <-. rewrite Est. repeat split; congruence.
  - injection Hrun as <-.
    destruct (PlacingBetsState_handle_effect g) as (Hr & Hs & Hl & Hst).
    rewrite Hr, Hs, Hl, Hst. repeat split; congruence.
  - apply DealingState_handle_effect in Hrun as (Hr & Hl & Hst & Hs).
    rewrite Hr, Hl, Hst, Hs. simpl. repeat split; congruence.
  - apply OfferInsuranceState_handle_effect in Hrun as (Hr & Hs & Hl & Hst).
    rewrite Hr, Hs, Hl, Hst. repeat split; congruence.
  - apply PlayersTurnState_handle_effect in Hrun as (Hr & Hs & Hl & Hst).
    rewrite Hr, Hs, Hl, Hst. repeat split; congruence.
  - apply DealersTurnState_handle_effect in Hrun as (Hr & Hs & Hl & Hst).
    rewrite Hr, Hs, Hl, Hst. repeat split; congruence.
  - injection Hrun as <-.
    destruct (EndRoundState_handle_effect g) as (Hr & Hl & Hst & Hgp & Hpw & Hdw & Hdr).
    rewrite Hr, Hl, Hst. repeat split; try congruence; lia.
Qed.

Lemma handle_stats_le shuffled g g' :
  handle shuffled g = Some g' -> stats_le (stats g) (stats g').
Proof.
  intros Hrun.
  destruct (handle_effect _ _ _ Hrun) as (_ & _ & _ & Hend & Hother & Hdeal & Hrest).
  unfold stats_le.
  destruct (current_state g) eqn:Est;
    try (destruct Hend as (? & ? & ? & ?); [reflexivity|]; lia);
    destruct Hother as (? & ? & ?); try discriminate;
    try (rewrite Hrest by discriminate; lia).
  rewrite Hdeal by reflexivity. destruct (_ =? 21); lia.
Qed.

(** A completed round: the counters move once, in [EndRoundState]; only
    [draws] may have moved before. *)
Lemma play_round_effect fuel shuffled g g' :
  play_round fuel shuffled g = Some g' ->
  rules g' = rules g
  /\ length (players g') = length (players g)
  /\ current_state g' = PlacingBetsState
  /\ games_played (stats g') = games_played (stats g) + 1
  /\ player_wins (stats g) <= player_wins (stats g') <= player_wins (stats g) + 1
  /\ dealer_wins (stats g) <= dealer_wins (stats g') <= dealer_wins (stats g) + 1
  /\ draws (stats g) <= draws (stats g').
Proof.
  unfold play_round. intros Hrun.
  destruct (play_round_loop fuel shuffled g) as [g1|] eqn:Eloop; [|discriminate].
  apply (play_round_loop_inv
           (fun s => rules s = rules g /\ length (players s) = length (players g)
                     /\ games_played (stats s) = games_played (stats g)
                     /\ player_wins (stats s) = player_wins (stats g)
                     /\ dealer_wins (stats s) = dealer_wins (stats g)
                     /\ draws (stats g) <= draws (stats s))) in Eloop
    as [(Hr & Hl & Hgp & Hpw & Hdw & Hdr) Hst].
  - destruct (handle_effect _ _ _ Hrun) as (Hr' & Hl' & Hst' & Hend & _).
    simpl in *. destruct (Hend Hst) as (? & ? & ? & ?).
    rewrite (Hst' ltac:(congruence)), Hst. simpl.
    repeat split; try congruence; lia.
  - intros s msg. simpl. tauto.
  - intros s s' Hne (Hr & Hl & Hgp & Hpw & Hdw & Hdr) Hstep.
    pose proof (handle_stats_le _ _ _ Hstep) as (_ & _ & _ & Hle).
    destruct (handle_effect _ _ _ Hstep) as (Hr' & Hl' & _ & _ & Hother & _).
    destruct (Hother Hne) as (? & ? & ?).
    repeat split; try congruence; lia.
  - repeat split; lia.
Qed.

(** *** Handlers that cannot fail *)




Lemma OfferInsuranceState_handle_ok g :
  d_current_hand (dealer g) <> [] -> is_Some (OfferInsuranceState_handle g).
Proof.
  intros Hhand. unfold OfferInsuranceState_handle.
  pose proof (for_each_inv (fun s => dealer s = dealer g) (fun _ _ => True)
                offer_insurance) as Hinv.
  destruct Hinv with (ps := players g) (s := g) as [Hd _]; [|reflexivity|].
  { intros s p Hs. unfold offer_insurance. destruct (has_ace _); simpl; by split. }
  destruct (for_each offer_insurance g (players g)) as [g1 ps]. simpl in *.
  rewrite Hd. destruct (d_current_hand (dealer g)); [done|]. eexists. reflexivity.
Qed.







(** From [WaitingForPlayersState] the loop of [play_round] never ends: the
    handler is a coroutine that is not awaited. *)
Lemma play_round_loop_waiting shuffled fuel :
  forall g, current_state g = WaitingForPlayersState ->
    play_round_loop fuel shuffled g = None.
Proof.
  induction fuel as [|fuel IH]; intros g Est; simpl; rewrite Est; [reflexivity|].
  unfold handle. simpl. rewrite Est. apply IH. simpl. exact Est.
Qed.


(** The counters, operation by operation.  None is ever lowered.  A handler
    outside [EndRoundState] leaves [games_played], [player_wins] and
    [dealer_wins] as they are; the handler of [EndRoundState] adds exactly 1
    to [games_played] and at most 1 to each of the other three.  The one
    other place that writes a counter is the tie branch of [check_blackjack]:
    with 21 in the dealer's hand, the handler of [DealingState] adds 1 to
    [draws] for every player holding the blackjack flag.  [add_player],
    [reset] and [set_state] leave the statistics alone, and a completed round
    has raised [games_played] by exactly 1 and [player_wins] and
    [dealer_wins] by at most 1. *)
Theorem counters_never_decrease (g : BlackjackGame) :
  (forall shuffled g', handle shuffled g = Some g' ->
     let s := stats g in
     let s' := stats g' in
     stats_le s s'
     /\ (current_state g = EndRoundState ->
         games_played s' = games_played s + 1
         /\ player_wins s' <= player_wins s + 1
         /\ dealer_wins s' <= dealer_wins s + 1
         /\ draws s' <= draws s + 1)
     /\ (current_state g <> EndRoundState ->
         games_played s' = games_played s
         /\ player_wins s' = player_wins s
         /\ dealer_wins s' = dealer_wins s)
     /\ (current_state g = DealingState ->
         draws s'
         = draws s
           + (if value (d_current_hand (dealer g')) =? 21
              then Z.of_nat (length (filter (fun p => blackjack p = true) (players g')))
              else 0))
     /\ (current_state g <> EndRoundState -> current_state g <> DealingState ->
         draws s' = draws s))
  /\ (forall player g', add_player g player = Some g' -> stats g' = stats g)
  /\ (forall new_deck, stats (reset new_deck g) = stats g)
  /\ (forall state, stats (set_state g state) = stats g)
  /\ (forall fuel shuffled g', play_round fuel shuffled g = Some g' ->
        games_played (stats g') = games_played (stats g) + 1
        /\ player_wins (stats g') <= player_wins (stats g) + 1
        /\ dealer_wins (stats g') <= dealer_wins (stats g) + 1
        /\ stats_le (stats g) (stats g')).
Proof.
  split; [|split; [|split; [|split]]].
  - intros shuffled g' Hrun. simpl.
    split; [by apply (handle_stats_le shuffled)|].
    destruct (handle_effect _ _ _ Hrun) as (_ & _ & _ & Hend & Hother & Hdeal & Hrest).
    repeat split; intros;
      try (destruct Hend as (? & ? & ? & ?); [assumption|]; lia);
      try (destruct Hother as (? & ? & ?); [assumption|]; assumption);
      auto.
  - intros [player|] g'; simpl; [|by intros [= <-]].
    destruct (rules g !! "max_players") as [m|]; [|discriminate].
    destruct (m <=? _); [by intros [= <-]|].
    unfold state_add_player.
    destruct (current_state g); simpl; by intros [= <-].
  - reflexivity.
  - reflexivity.
  - intros fuel shuffled g' Hrun.
    destruct (play_round_effect _ _ _ _ Hrun) as (_ & _ & _ & Hgp & Hpw & Hdw & Hdr).
    unfold stats_le. repeat split; lia.
Qed.

(** *** Joining the table *)

(** A new game is within the limit as soon as the limit is not negative. *)
Lemma new_game_within_limit (rules : gmap string Z) (new_deck : list Card) (m : Z) :
  rules !! "max_players" = Some m -> 0 <= m -> within_limit (new_game rules new_deck).
Proof. intros Hm Hpos. exists m. by split. Qed.

(** Claim C8.  With [max_players] configured, [add_player] called outside
    [WaitingForPlayersState], or with the table already full, raises nothing
    and changes nothing but the io interface, to which it reports the
    rejection; the list of players is the same.  Hence [len(players) <=
    max_players], once true, stays true under [add_player], every handler,
    [play_round], [reset] and [set_state]. *)
Theorem add_player_rejects (g : BlackjackGame) (max_players : Z) :
  rules g !! "max_players" = Some max_players ->
  (forall player,
      current_state g <> WaitingForPlayersState
      \/ max_players <= Z.of_nat (length (players g)) ->
      exists msg, msg ∈ rejections
                  /\ add_player g player = Some (output g msg)
                  /\ players (output g msg) = players g)
  /\ (within_limit g ->
      (forall player g', add_player g player = Some g' -> within_limit g')
      /\ (forall shuffled g', handle shuffled g = Some g' -> within_limit g')
      /\ (forall fuel shuffled g', play_round fuel shuffled g = Some g' ->
                                   within_limit g')
      /\ (forall new_deck, within_limit (reset new_deck g))
      /\ (forall state, within_limit (set_state g state))).
Proof.
  intros Hmax. split.
  - assert (Hreport : forall msg, msg ∈ rejections ->
              forall r, r = Some (output g msg) ->
              exists msg, msg ∈ rejections /\ r = Some (output g msg)
                          /\ players (output g msg) = players g)
      by (intros msg Hin r ->; by exists msg).
    intros [player|] Hreject; unfold add_player.
    + rewrite Hmax.
      destruct (Z.leb_spec max_players (Z.of_nat (length (players g)))) as [Hfull|Hroom].
      * apply (Hreport "Game is full."); [|reflexivity].
        unfold rejections. repeat constructor.
      * destruct Hreject as [Hstate | Hfull]; [|lia].
        apply (Hreport "Game has already started.");
          [unfold rejections; repeat constructor|].
        destruct (current_state g); first [reflexivity | congruence].
    + apply (Hreport "Invalid player."); [|reflexivity].
      unfold rejections. repeat constructor.
  - intros (m & Hm & Hlen). rewrite Hmax in Hm. injection Hm as <-.
    repeat split.
    + intros [player|] g'; unfold add_player;
        [|intros [= <-]; by exists max_players].
      rewrite Hmax.
      destruct (Z.leb_spec max_players (Z.of_nat (length (players g)))) as [Hfull|Hroom];
        [intros [= <-]; by exists max_players|].
      unfold state_add_player.
      destruct (current_state g); simpl; intros [= <-];
        exists max_players; (split; [assumption|]); simpl; try assumption.
      rewrite length_app. simpl. lia.
    + intros shuffled g' Hrun.
      destruct (handle_effect _ _ _ Hrun) as (Hr & Hl & _).
      exists max_players. by rewrite Hr, Hl.
    + intros fuel shuffled g' Hrun.
      destruct (play_round_effect _ _ _ _ Hrun) as (Hr & Hl & _).
      exists max_players. by rewrite Hr, Hl.
    + intros new_deck. exists max_players. simpl. by rewrite length_map.
    + intros state. by exists max_players.
Qed.

(** *** Naturals *)


(** *** Insurance *)

Lemma settled_buy_insurance d p amount :
  settled d (buy_insurance p amount) = buy_insurance (settled d p) amount.
Proof. reflexivity. Qed.

(** Claim C3, as amended.  At the insurance offer every player buys the
    insurance of 10 when [dealer.has_ace()] holds and nothing happens
    otherwise; the step pays nobody and changes no outcome tag, whatever the
    dealer's two cards are.  The settlement at the end of the round does not
    look at the insurance. *)
Theorem insurance_is_only_bought (g g' : BlackjackGame) :
  OfferInsuranceState_handle g = Some g' ->
  Forall2 (fun p r =>
             payouts r = payouts p /\ winner r = winner p /\ bet r = bet p
             /\ insurance r = (if has_ace (d_current_hand (dealer g)) then 10
                               else insurance p))
          (players g) (players g')
  /\ dealer g' = dealer g
  /\ (forall d p amount,
        winner (settled d (buy_insurance p amount)) = winner (settled d p)
        /\ payouts (settled d (buy_insurance p amount)) = payouts (settled d p)).
Proof.
  unfold OfferInsuranceState_handle. intros Hrun.
  pose proof (for_each_inv (fun s => dealer s = dealer g)
                (fun p r => payouts r = payouts p /\ winner r = winner p
                            /\ bet r = bet p
                            /\ insurance r = (if has_ace (d_current_hand (dealer g))
                                              then 10 else insurance p))
                offer_insurance) as Hinv.
  destruct Hinv with (ps := players g) (s := g) as [Hd HF]; [|reflexivity|].
  { intros s p Hs. unfold offer_insurance. rewrite Hs.
    destruct (has_ace _); simpl; by repeat split. }
  destruct (for_each offer_insurance g (players g)) as [g1 ps]. simpl in *.
  destruct (d_current_hand (dealer g1)); [discriminate|].
  injection Hrun as <-. simpl. repeat split; assumption.
Qed.

(** *** The dealer's turn *)

Lemma with_deck_deck g : with_deck g (deck g) = g.
Proof. by destruct g. Qed.

(** The loop of the dealer is a chain of draws that ends where the policy
    says stand. *)
Lemma dealer_loop_run cards :
  forall g g', dealer_loop cards g = Some g' ->
    rtc dealer_draws (with_deck g cards) g'
    /\ should_hit (d_current_hand (dealer g')) = false.
Proof.
  induction cards as [|card cards IH]; intros g g'; simpl;
    destruct (should_hit (d_current_hand (dealer g))) eqn:Ehit; try discriminate.
  - intros [= <-]. split; [apply rtc_refl | exact Ehit].
  - intros Hrun. apply IH in Hrun as [Hrun Hstop]. split; [|exact Hstop].
    eapply rtc_l; [|exact Hrun]. split; [exact Ehit | reflexivity].
  - intros [= <-]. split; [apply rtc_refl | exact Ehit].
Qed.

Lemma dealer_loop_ok cards :
  (forall hand, should_hit hand = true <-> value hand < 17) ->
  forall g k, (k <= length cards)%nat ->
    17 <= value (d_current_hand (dealer g) ++ take k cards) ->
    is_Some (dealer_loop cards g).
Proof.
  intros Hpolicy. induction cards as [|card cards IH]; intros g k Hk Hval; simpl;
    destruct (should_hit (d_current_hand (dealer g))) eqn:Ehit;
    try (eexists; reflexivity).
  - apply Hpolicy in Ehit. rewrite take_nil, app_nil_r in Hval. lia.
  - destruct k as [|k].
    + apply Hpolicy in Ehit. rewrite take_0, app_nil_r in Hval. lia.
    + apply (IH _ k); simpl in *; [lia|]. by rewrite <- app_assoc.
Qed.

(** Claim C6.  Let the dealer's policy say hit exactly when the hand value is
    below 17.  Then a card is drawn in the dealer's turn only from a hand
    below 17; when the handler of [DealersTurnState] returns, it has gone
    through a chain of such draws, the dealer's hand is worth 17 or more
    (possibly over 21) and the state is [EndRoundState]; and the handler
    does return when some number of cards from the top of the deck brings
    the hand to 17 or more. *)
Theorem dealer_stands_from_17 (g : BlackjackGame) :
  (forall hand, should_hit hand = true <-> value hand < 17) ->
  (forall g1 g2, dealer_draws g1 g2 -> value (d_current_hand (dealer g1)) < 17)
  /\ (forall g', DealersTurnState_handle g = Some g' ->
        17 <= value (d_current_hand (dealer g'))
        /\ current_state g' = EndRoundState
        /\ exists last, rtc dealer_draws g last
                        /\ g' = set_state (output last "Dealer stands.") EndRoundState)
  /\ ((exists k, (k <= length (deck g))%nat
                 /\ 17 <= value (d_current_hand (dealer g) ++ take k (deck g))) ->
      is_Some (DealersTurnState_handle g)).
Proof.
  intros Hpolicy. split; [|split].
  - intros g1 g2 [Hhit _]. by apply Hpolicy.
  - unfold DealersTurnState_handle. intros g' Hrun.
    destruct (dealer_loop (deck g) g) as [last|] eqn:Eloop; [|discriminate].
    injection Hrun as <-. simpl.
    apply dealer_loop_run in Eloop as [Hchain Hstop].
    rewrite with_deck_deck in Hchain.
    split; [|split; [reflexivity|]].
    + destruct (Z.lt_ge_cases (value (d_current_hand (dealer last))) 17) as [Hlt|Hge];
        [|exact Hge].
      apply Hpolicy in Hlt. congruence.
    + exists last. by split.
  - intros (k & Hk & Hval). unfold DealersTurnState_handle.
    destruct (dealer_loop_ok (deck g) Hpolicy g k Hk Hval) as [last ->].
    eexists. reflexivity.
Qed.

End Handlers.

(** ** The claims on sample tables *)

Lemma standard_policy (hand : list Card) :
  should_hit hand = true <-> value hand < 17.
Proof. apply Z.ltb_lt. Qed.

Lemma calculate_winner_outcome_witness :
  players Examples.nineteen_at_end !! 0%nat
  = Some (mkPlayer "Bob" [Examples.card Standard.Ten Standard.Spades;
                          Examples.card Standard.Nine Standard.Spades]
                   10 0 false false None [])
  /\ exists r,
      players (calculate_winner Examples.nineteen_at_end) !! 0%nat = Some r
      /\ winner r = Some "player" /\ payouts r = [20%Q].
Proof.
  split; [reflexivity|].
  destruct (calculate_winner_outcome Examples.nineteen_at_end 0 _ eq_refl)
    as (r & Hr & _ & _ & _ & _ & Hwin & _).
  exists r. split; [exact Hr|].
  apply Hwin; vm_compute; [discriminate | right; reflexivity].
Defined.

Lemma calculate_winner_settles_everyone_witness :
  players Examples.natural_at_end !! 0%nat
  = Some (mkPlayer "Bob" [Examples.card Standard.Ace Standard.Spades;
                          Examples.card Standard.King Standard.Spades]
                   10 0 false false None [])
  /\ exists r,
      players (calculate_winner Examples.natural_at_end) !! 0%nat = Some r
      /\ winner r = Some "player" /\ payouts r = [20%Q].
Proof.
  split; [reflexivity|].
  destruct (calculate_winner_settles_everyone Examples.natural_at_end 0 _ eq_refl)
    as (r & Hr & Hw & _ & Hpaid & _).
  exists r. split; [exact Hr|]. split; [exact Hw | exact Hpaid].
Defined.

(** Claim C1, as stated, fails.  Bob is dealt A K and the dealer 9 7.  When
    the loop of [play_round] is left, Bob carries the blackjack flag and the
    tag player-wins and has been paid 15; the handler of [EndRoundState]
    settles him again and pays 20 on top. *)
Lemma blackjack_paid_twice :
  (fun g => map (fun p => (blackjack p, winner p, payouts p)) (players g))
    <$> play_round_loop 5 Examples.deck_natural Examples.table
  = Some [(true, Some "player", [15%Q])]
  /\ (fun g => map payouts (players g))
       <$> play_round 5 Examples.deck_natural Examples.table
     = Some [[15%Q; 20%Q]].
Proof. split; vm_compute; reflexivity. Qed.

Lemma insurance_is_only_bought_witness :
  exists g',
    OfferInsuranceState_handle Examples.dealer_natural_offer = Some g'
    /\ Forall2 (fun p r => payouts r = payouts p /\ winner r = winner p
                           /\ bet r = bet p /\ insurance r = 10)
               (players Examples.dealer_natural_offer) (players g').
Proof.
  destruct (OfferInsuranceState_handle Examples.dealer_natural_offer) as [g'|] eqn:Eh;
    [|vm_compute in Eh; discriminate].
  exists g'. split; [reflexivity|].
  exact (proj1 (insurance_is_only_bought _ _ Eh)).
Defined.

(** Claim C3, as stated, fails.  Bob is dealt 10 9 and the dealer A K, a
    natural.  After the handlers of PlacingBets, Dealing and OfferInsurance
    Bob has bought the insurance of 10 and has been paid nothing; at the end
    of the round he still has been paid nothing. *)
Lemma insurance_never_paid :
  (fun g => (current_state g, value (d_current_hand (dealer g)),
             map (fun p => (insurance p, payouts p)) (players g)))
    <$> ((handle Examples.deck_dealer_natural Examples.table
            ≫= handle Examples.deck_dealer_natural)
           ≫= handle Examples.deck_dealer_natural)
  = Some (PlayersTurnState, 21, [(10, [])])
  /\ (fun g => map (fun p => (insurance p, payouts p)) (players g))
       <$> play_round 5 Examples.deck_dealer_natural Examples.table
     = Some [(10, [])].
Proof. split; vm_compute; reflexivity. Qed.


(** Bob and the dealer both hold A K: after [check_blackjack] Bob's tag is
    "player", and the tie has gone into [draws]. *)
Example check_blackjack_tie :
  (map winner (players (check_blackjack Examples.both_natural_dealt)),
   draws (stats (check_blackjack Examples.both_natural_dealt)))
  = ([Some "player"], 1).
Proof. vm_compute. reflexivity. Qed.

(** Claim C5: the counters are to be updated once per round, at the update
    in [EndRoundState].  The code departs from it in the tie branch of
    [check_blackjack], which adds to [draws] itself where its sibling branch
    tags the player and leaves the counting to [update].  Bob and the dealer
    are both dealt A K.  After the handlers of PlacingBets and Dealing, with
    the round still to be played, [draws] is already 1; the update at the
    end of the round counts the same tie again and leaves it at 2. *)
Lemma draws_counted_while_dealing :
  (fun g => (current_state g, draws (stats g)))
    <$> (handle Examples.deck_both_natural Examples.table
           ≫= handle Examples.deck_both_natural)
  = Some (OfferInsuranceState, 1)
  /\ (fun g => draws (stats g))
       <$> play_round 5 Examples.deck_both_natural Examples.table
     = Some 2.
Proof. split; vm_compute; reflexivity. Qed.

(** Ann, Bob and the dealer are all dealt 21 in two cards.  One round has
    been played, and [draws] stands at 3: one for each tie while dealing,
    and one more from the update at the end of the round. *)
Example two_ties_one_round :
  (fun g => (games_played (stats g), player_wins (stats g), dealer_wins (stats g),
             draws (stats g)))
    <$> play_round 5 Examples.deck_all_natural Examples.table_of_two
  = Some (1, 0, 0, 3).
Proof. vm_compute. reflexivity. Qed.

Lemma dealer_stands_from_17_witness :
  exists g',
    DealersTurnState_handle Examples.dealer_at_sixteen = Some g'
    /\ 17 <= value (d_current_hand (dealer g'))
    /\ current_state g' = EndRoundState.
Proof.
  destruct (dealer_stands_from_17 Examples.dealer_at_sixteen standard_policy)
    as (_ & Hend & Hreturns).
  destruct Hreturns as [g' Hg'].
  { exists 1%nat. split; [simpl; lia | vm_compute; discriminate]. }
  exists g'. split; [exact Hg'|].
  destruct (Hend g' Hg') as (Hval & Hst & _). by split.
Defined.


(** A whole round, state by state. *)
Example round_of_states :
  (fun g => current_state g)
    <$> (handle Examples.deck_sixteen Examples.table)
  = Some DealingState
  /\ (fun g => current_state g)
       <$> (handle Examples.deck_sixteen Examples.table
              ≫= handle Examples.deck_sixteen)
     = Some OfferInsuranceState
  /\ (fun g => current_state g)
       <$> ((handle Examples.deck_sixteen Examples.table
               ≫= handle Examples.deck_sixteen) ≫= handle Examples.deck_sixteen)
     = Some PlayersTurnState
  /\ (fun g => current_state g)
       <$> (((handle Examples.deck_sixteen Examples.table
                ≫= handle Examples.deck_sixteen) ≫= handle Examples.deck_sixteen)
              ≫= handle Examples.deck_sixteen)
     = Some DealersTurnState
  /\ (fun g => current_state g)
       <$> play_round_loop 5 Examples.deck_sixteen Examples.table
     = Some EndRoundState
  /\ (fun g => (current_state g, stats g))
       <$> play_round 5 Examples.deck_sixteen Examples.table
     = Some (PlacingBetsState, mkStats 1 0 1 0).
Proof. repeat split; vm_compute; reflexivity. Qed.

Lemma add_player_rejects_witness :
  rules Examples.full_table !! "max_players" = Some 1
  /\ exists msg,
      msg ∈ rejections
      /\ add_player Examples.full_table (Some Examples.ann)
         = Some (output Examples.full_table msg)
      /\ players (output Examples.full_table msg) = [Examples.bob].
Proof.
  split; [reflexivity|].
  destruct (add_player_rejects Examples.full_table 1 eq_refl) as [Hreject _].
  apply (Hreject (Some Examples.ann)). right. simpl. lia.
Defined.

(** The table for one turns Ann away with "Game is full."; the larger table,
    once the bets are on, with "Game has already started.". *)
Example add_player_messages :
  (io_interface <$> add_player Examples.full_table (Some Examples.ann),
   io_interface <$> add_player Examples.table (Some Examples.ann))
  = (Some ["Game is full."], Some ["Game has already started."]).
Proof. vm_compute. reflexivity. Qed.

End BlackjackFacts.

(** * The high-card game *)
Module HighCardFacts.
Import HighCard.

Section Round.
Context {Card : Type} (show_card : Card -> string) (rank_gt : Card -> Card -> bool).

(** Drawing the cards does not touch the statistics. *)
Lemma draw_loop_game_state player_list :
  forall (g : HighCardGame) high_card winner g' winner',
    draw_loop show_card rank_gt player_list g high_card winner = Some (g', winner') ->
    game_state g' = game_state g.
Proof.
  induction player_list as [|i player_list IH]; intros g high_card winner g' winner';
    simpl.
  - by intros [= <- _].
  - destruct (players g !! i) as [player|]; [|discriminate].
    destruct (deck g) as [|drawn_card rest]; [discriminate|].
    simpl. destruct (beats rank_gt drawn_card high_card);
      intros Hrun; apply IH in Hrun; exact Hrun.
Qed.

Lemma others_lookup_ne (winner_name n : string) (d : gmap string Z) :
  n <> winner_name -> others winner_name d !! n = d !! n.
Proof.
  intros Hne. unfold others. apply option_eq. intros v.
  rewrite map_lookup_filter_Some. simpl. tauto.
Qed.

(** Claim C10.  A round of high card that produces a winner adds exactly 1
    to [rounds_played] and to the winner's entry of [wins]; it sets the
    winner's [current_streak] to its former value plus 1 and every other
    entry of [current_streak] to 0; no entry of [max_streak] goes down, the
    winner's becoming the larger of its former value and the new streak.  An
    entry that is missing counts as 0. *)
Theorem play_round_winner (fresh : list Card) (player_list : list nat)
  (g g' : HighCardGame) (winner : SimplePlayer) :
  play_round show_card rank_gt fresh player_list g = Some (Some winner, g') ->
  let st := game_state g in
  let st' := game_state g' in
  let w := name winner in
  rounds_played st' = rounds_played st + 1
  /\ wins st' !! w = Some (get0 (wins st) w + 1)
  /\ (forall n, n <> w -> wins st' !! n = wins st !! n)
  /\ current_streak st' !! w = Some (get0 (current_streak st) w + 1)
  /\ (forall n, n <> w -> is_Some (current_streak st !! n) ->
                current_streak st' !! n = Some 0)
  /\ (forall n, n <> w -> current_streak st !! n = None ->
                current_streak st' !! n = None)
  /\ max_streak st' !! w = Some (Z.max (get0 (max_streak st) w)
                                       (get0 (current_streak st) w + 1))
  /\ (forall n v, max_streak st !! n = Some v ->
                  exists v', max_streak st' !! n = Some v' /\ v <= v').
Proof.
  unfold play_round. intros Hrun.
  destruct (draw_loop _ _ _ _ _ _) as [[g1 [i|]]|] eqn:Eloop; try discriminate.
  apply draw_loop_game_state in Eloop. simpl in Eloop.
  destruct (players g1 !! i) as [winner1|]; [|discriminate].
  injection Hrun as -> <-. simpl. rewrite Eloop. clear Eloop g1.
  set (st := game_state g). set (w := name winner).
  split; [reflexivity|].
  split; [apply lookup_insert_eq|].
  split; [intros n Hne; by apply lookup_insert_ne|].
  split; [apply lookup_insert_eq|].
  split.
  { intros n Hne [v Hv].
    rewrite lookup_insert_ne, lookup_fmap, others_lookup_ne, Hv by done. reflexivity. }
  split.
  { intros n Hne Hnone.
    rewrite lookup_insert_ne, lookup_fmap, others_lookup_ne, Hnone by done.
    reflexivity. }
  split; [apply lookup_insert_eq|].
  intros n v Hv. destruct (decide (n = w)) as [->|Hne].
  - rewrite lookup_insert_eq. eexists. split; [reflexivity|].
    unfold get0. rewrite Hv. simpl. lia.
  - rewrite lookup_insert_ne, map_lookup_imap, others_lookup_ne, Hv by done.
    simpl. exists v. unfold get0. rewrite Hv. simpl. split; [reflexivity | lia].
Qed.

End Round.

Lemma play_round_winner_witness :
  exists winner g',
    play_round Standard.show_card Standard.rank_gt HighCardExamples.king_then_five
               [1%nat; 0%nat] HighCardExamples.bob_on_a_streak
    = Some (Some winner, g')
    /\ name winner = "Bob"
    /\ rounds_played (game_state g') = 6
    /\ wins (game_state g') !! "Bob" = Some 4
    /\ current_streak (game_state g') !! "Bob" = Some 3
    /\ current_streak (game_state g') !! "Alice" = Some 0
    /\ max_streak (game_state g') !! "Bob" = Some 3.
Proof.
  destruct (play_round Standard.show_card Standard.rank_gt
              HighCardExamples.king_then_five [1%nat; 0%nat]
              HighCardExamples.bob_on_a_streak) as [[[winner|] g']|] eqn:Erun;
    try (vm_compute in Erun; discriminate).
  exists winner, g'. split; [reflexivity|].
  assert (Hname : name winner = "Bob")
    by (vm_compute in Erun; by injection Erun as <- _).
  destruct (play_round_winner _ _ _ _ _ _ _ Erun)
    as (Hrounds & Hwins & _ & Hstreak & Hreset & _ & Hmax & _).
  rewrite Hname in *. split; [reflexivity|].
  split; [exact Hrounds|]. split; [exact Hwins|]. split; [exact Hstreak|].
  split; [|exact Hmax].
  apply Hreset; [discriminate | by exists 0].
Defined.

(** The first round of Alice and Bob, Alice drawing first: she draws the king
    and wins. *)
Example first_round :
  (fun r : option (@SimplePlayer Standard.Card) * HighCardGame =>
     (name <$> r.1, rounds_played (game_state r.2),
             map_to_list (wins (game_state r.2)),
             map_to_list (current_streak (game_state r.2)),
             map_to_list (max_streak (game_state r.2))))
    <$> play_round Standard.show_card Standard.rank_gt HighCardExamples.king_then_five
          [0%nat; 1%nat] HighCardExamples.game
  = Some (Some "Alice", 1, [("Alice", 1); ("Bob", 0)], [("Alice", 1); ("Bob", 0)],
          [("Alice", 1); ("Bob", 0)]).
Proof. vm_compute. reflexivity. Qed.

End HighCardFacts.

(** * More about the blackjack table *)
Module BlackjackMore.
Import Blackjack BlackjackFacts.

(** ** Doubles

    What the conversions, products and quotients of the code need of
    rounding to a double: a right shift is a division by a power of two, a
    significand with zero bits to spare is rounded to itself, and a quotient
    below one is rounded to at most one. *)
(** *** Shifts and digits *)

(** One step to the right halves the significand. *)
Lemma shr_1_half r : 0 <= shr_m r -> shr_m (shr_1 r) = shr_m r / 2.
Proof.
  destruct r as [m r s]. simpl. intros Hm.
  rewrite <- Z.div2_div. destruct m as [|[p|p|]|p]; try reflexivity; lia.
Qed.

Lemma iter_shr_1 p : forall r,
  0 <= shr_m r -> shr_m (SpecFloat.iter_pos shr_1 p r) = shr_m r / 2 ^ Z.pos p.
Proof.
  assert (Hpos : forall r, 0 <= shr_m r -> 0 <= shr_m (shr_1 r)).
  { intros r Hr. rewrite shr_1_half by exact Hr. apply Z.div_pos; lia. }
  assert (Hdiv : forall m k, 0 <= m -> 0 <= m / 2 ^ Z.pos k).
  { intros m k Hm. apply Z.div_pos; lia. }
  induction p as [p IH|p IH|]; intros r Hr; cbn [SpecFloat.iter_pos].
  - rewrite IH by (rewrite IH by auto; auto).
    rewrite IH by auto. rewrite shr_1_half by exact Hr.
    rewrite !Z.div_div by lia. f_equal.
    replace (Z.pos p~1) with (1 + (Z.pos p + Z.pos p)) by lia.
    rewrite !Z.pow_add_r by lia. reflexivity.
  - rewrite IH by (rewrite IH by auto; auto).
    rewrite IH by auto.
    rewrite !Z.div_div by lia. f_equal.
    replace (Z.pos p~0) with (Z.pos p + Z.pos p) by lia.
    rewrite !Z.pow_add_r by lia. reflexivity.
  - rewrite shr_1_half by exact Hr. reflexivity.
Qed.

(** A number below [2 ^ k] has at most [k] digits. *)
Lemma digits2_pos_le p : forall k, Z.pos p < 2 ^ k -> Z.pos (digits2_pos p) <= k.
Proof.
  assert (Hk : forall k m, Z.pos m < 2 ^ k -> 0 < k).
  { intros k m Hm. destruct (Z.lt_ge_cases 0 k) as [|Hk]; [assumption|].
    destruct (Z.eq_dec k 0) as [->|Hne].
    - rewrite Z.pow_0_r in Hm. lia.
    - rewrite Z.pow_neg_r in Hm by lia. lia. }
  assert (Hhalf : forall k, 0 < k -> 2 ^ k = 2 * 2 ^ (k - 1)).
  { intros k Hpos. rewrite <- Z.pow_succ_r by lia. f_equal. lia. }
  induction p as [p IH|p IH|]; intros k Hp; pose proof (Hk _ _ Hp) as Hpos;
    cbn [digits2_pos]; [| |lia];
    rewrite Pos2Z.inj_succ; specialize (IH (k - 1)); rewrite Hhalf in Hp by exact Hpos; lia.
Qed.

Lemma Zdigits2_le m k : 0 <= k -> 0 <= m < 2 ^ k -> Zdigits2 m <= k.
Proof.
  intros Hk [Hm Hlt]. destruct m as [|p|p]; simpl; try lia.
  apply digits2_pos_le. exact Hlt.
Qed.


Lemma shr_record_of_loc_m m l : shr_m (shr_record_of_loc m l) = m.
Proof. by destruct l as [|[]]. Qed.

(** *** Quotients below one *)

(** Bringing a significand to its format keeps the value at or below 1, or
    below 1, when it was. *)
Lemma shr_fexp_le m e l :
  e <= 0 -> 0 <= m <= 2 ^ (- e) ->
  let '(r', e') := shr_fexp 53 1024 m e l in
  e' <= 0 /\ 0 <= shr_m r' <= 2 ^ (- e') /\ (m < 2 ^ (- e) -> shr_m r' < 2 ^ (- e')).
Proof.
  intros He [Hm Hle]. unfold shr_fexp, shr.
  assert (Hdigits : Zdigits2 m <= - e + 1).
  { apply Zdigits2_le; [lia|]. split; [exact Hm|].
    rewrite Z.pow_add_r by lia. simpl (2 ^ 1). lia. }
  assert (Hfexp : fexp 53 1024 (Zdigits2 m + e) <= 0) by (unfold fexp, emin; lia).
  destruct (fexp 53 1024 (Zdigits2 m + e) - e) as [|n|n] eqn:En;
    try (rewrite shr_record_of_loc_m; repeat split; auto; lia).
  rewrite iter_shr_1, shr_record_of_loc_m by (rewrite shr_record_of_loc_m; exact Hm).
  assert (Hpow : 2 ^ (- e) = 2 ^ (- (e + Z.pos n)) * 2 ^ Z.pos n).
  { rewrite <- Z.pow_add_r by lia. f_equal. lia. }
  assert (H2 : 0 < 2 ^ Z.pos n) by (apply Z.pow_pos_nonneg; lia).
  split; [lia|]. split; [split|].
  - apply Z.div_pos; lia.
  - apply Z.div_le_upper_bound; [exact H2|]. lia.
  - intros Hlt. apply Z.div_lt_upper_bound; [exact H2|]. lia.
Qed.

Lemma round_nearest_even_le m l : m <= round_nearest_even m l <= m + 1.
Proof. destruct l as [|[]]; simpl; try lia. destruct (Z.even m); lia. Qed.

(** A value below 1 is rounded to a double from 0.0 to 1.0. *)
Lemma binary_round_aux_zero_to_one q e l :
  e <= 0 -> 0 <= q < 2 ^ (- e) ->
  zero_to_one (binary_round_aux 53 1024 false q e l).
Proof.
  intros He [Hq Hlt]. unfold binary_round_aux.
  pose proof (shr_fexp_le q e l He ltac:(lia)) as H1.
  destruct (shr_fexp 53 1024 q e l) as [r1 e1].
  destruct H1 as (He1 & [Hm1 _] & Hlt1). specialize (Hlt1 Hlt).
  pose proof (round_nearest_even_le (shr_m r1) (loc_of_shr_record r1)) as Hround.
  pose proof (shr_fexp_le (round_nearest_even (shr_m r1) (loc_of_shr_record r1)) e1
                loc_Exact He1 ltac:(lia)) as H3.
  destruct (shr_fexp 53 1024 _ e1 loc_Exact) as [r3 e3].
  destruct H3 as (He3 & [Hm3 Hle3] & _).
  destruct (shr_m r3) as [|m3|m3]; simpl; [trivial| |lia].
  destruct (Z.leb_spec e3 (1024 - 53)); [|lia]. simpl. by split.
Qed.

(** The quotient of a positive integer by a larger one is a double from 0.0
    to 1.0. *)
Lemma SFdiv_zero_to_one (a b : positive) :
  (a < b)%positive ->
  zero_to_one (SFdiv 53 1024 (S754_finite false a 0) (S754_finite false b 0)).
Proof.
  intros Hab. unfold SFdiv, SFdiv_core_binary.
  set (e := Z.min (fexp 53 1024 (Zdigits2 (Z.pos a) + 0 - (Zdigits2 (Z.pos b) + 0))) (0 - 0)).
  assert (He : e <= 0) by (unfold e; lia).
  set (m := match 0 - 0 - e with
            | 0 => Z.pos a
            | Z.pos _ => Z.shiftl (Z.pos a) (0 - 0 - e)
            | Z.neg _ => 0
            end).
  assert (Hm : m = Z.pos a * 2 ^ (- e)).
  { unfold m. replace (0 - 0 - e) with (- e) by lia.
    destruct (- e) as [|s|s] eqn:Es; [rewrite Z.pow_0_r; lia | | lia].
    by rewrite Z.shiftl_mul_pow2. }
  pose proof (Z.div_eucl_eq m (Z.pos b) ltac:(lia)) as Heq.
  pose proof (Z.mod_pos_bound m (Z.pos b) ltac:(lia)) as Hmod.
  unfold Z.modulo in Hmod.
  destruct (Z.div_eucl m (Z.pos b)) as [q r]. simpl xorb.
  assert (Hpow : 0 < 2 ^ (- e)) by (apply Z.pow_pos_nonneg; lia).
  apply binary_round_aux_zero_to_one; [exact He|]. split; nia.
Qed.

(** *** Exact conversions and products *)

Lemma Zdigits2_double m : 0 < m -> Zdigits2 (2 * m) = Zdigits2 m + 1.
Proof.
  destruct m as [|p|p]; try lia. intros _.
  change (2 * Z.pos p) with (Z.pos p~0). cbn [Zdigits2 digits2_pos]. lia.
Qed.

Lemma Zdigits2_shift n : 0 <= n -> forall m, 0 < m -> Zdigits2 (2 ^ n * m) = Zdigits2 m + n.
Proof.
  intros Hn. pattern n. apply natlike_ind; [| |exact Hn].
  - intros m Hm. rewrite Z.pow_0_r, Z.mul_1_l. lia.
  - intros k Hk IH m Hm. rewrite Z.pow_succ_r by exact Hk.
    rewrite <- Z.mul_assoc, Zdigits2_double by (apply Z.mul_pos_pos; [apply Z.pow_pos_nonneg|]; lia).
    rewrite IH by exact Hm. lia.
Qed.

(** A number of [d] digits lies from [2 ^ (d - 1)] up to [2 ^ d]. *)
Lemma digits2_pos_bounds p :
  2 ^ (Z.pos (digits2_pos p) - 1) <= Z.pos p < 2 ^ Z.pos (digits2_pos p).
Proof.
  induction p as [p IH|p IH|]; cbn [digits2_pos];
    [| |change (2 ^ (1 - 1) <= 1 < 2 ^ 1); rewrite Z.pow_0_r, Z.pow_1_r; lia];
    rewrite Pos2Z.inj_succ;
    replace (Z.succ (Z.pos (digits2_pos p)) - 1) with (Z.succ (Z.pos (digits2_pos p) - 1)) by lia;
    rewrite (Z.pow_succ_r 2 (Z.pos (digits2_pos p))) by lia;
    rewrite (Z.pow_succ_r 2 (Z.pos (digits2_pos p) - 1)) by lia;
    replace (2 ^ Z.pos (digits2_pos p)) with (2 * 2 ^ (Z.pos (digits2_pos p) - 1)) in *
      by (rewrite <- Z.pow_succ_r by lia; f_equal; lia);
    lia.
Qed.

Lemma shr_1_exact m :
  0 <= m -> shr_1 (Build_shr_record (2 * m) false false) = Build_shr_record m false false.
Proof. destruct m as [|p|p]; try lia; reflexivity. Qed.

(** Shifting out zero bits leaves neither a round bit nor a sticky bit. *)
Lemma iter_shr_1_exact n : forall m,
  0 <= m ->
  SpecFloat.iter_pos shr_1 n (Build_shr_record (2 ^ Z.pos n * m) false false)
  = Build_shr_record m false false.
Proof.
  induction n as [n IH|n IH|]; intros m Hm; cbn [SpecFloat.iter_pos].
  - replace (2 ^ Z.pos n~1 * m) with (2 * (2 ^ Z.pos n * (2 ^ Z.pos n * m))).
    + rewrite shr_1_exact, IH, IH by (try apply Z.mul_nonneg_nonneg; lia). reflexivity.
    + replace (Z.pos n~1) with (1 + (Z.pos n + Z.pos n)) by lia.
      rewrite !Z.pow_add_r, Z.pow_1_r by lia. ring.
  - replace (2 ^ Z.pos n~0 * m) with (2 ^ Z.pos n * (2 ^ Z.pos n * m)).
    + rewrite IH, IH by (try apply Z.mul_nonneg_nonneg; lia). reflexivity.
    + replace (Z.pos n~0) with (Z.pos n + Z.pos n) by lia.
      rewrite !Z.pow_add_r by lia. ring.
  - rewrite Z.pow_1_r. by apply shr_1_exact.
Qed.

(** Rounding a significand with [n] zero bits to spare is exact. *)
Lemma binary_round_aux_exact sx (m : positive) e n :
  0 <= n ->
  fexp 53 1024 (Zdigits2 (Z.pos m) + n + e) = e + n ->
  e + n <= 1024 - 53 ->
  binary_round_aux 53 1024 sx (2 ^ n * Z.pos m) e loc_Exact = S754_finite sx m (e + n).
Proof.
  intros Hn Hfexp Hmax. unfold binary_round_aux, shr_fexp.
  rewrite Zdigits2_shift by lia.
  replace (fexp 53 1024 (Zdigits2 (Z.pos m) + n + e) - e) with n by lia.
  assert (Hshr : shr (shr_record_of_loc (2 ^ n * Z.pos m) loc_Exact) e n
                 = (Build_shr_record (Z.pos m) false false, e + n)).
  { unfold shr, shr_record_of_loc. destruct n as [|k|k]; try lia.
    - rewrite Z.pow_0_r, Z.mul_1_l. f_equal. lia.
    - by rewrite iter_shr_1_exact. }
  rewrite Hshr. cbn [shr_m loc_of_shr_record round_nearest_even].
  replace (Zdigits2 (Z.pos m) + (e + n)) with (Zdigits2 (Z.pos m) + n + e) by lia.
  rewrite Hfexp, Z.sub_diag. cbn [shr shr_record_of_loc shr_m].
  destruct (Z.leb_spec (e + n) (1024 - 53)); [reflexivity | lia].
Qed.

Lemma fexp_normal x : -1021 <= x -> fexp 53 1024 x = x - 53.
Proof. intros Hx. unfold fexp, emin. lia. Qed.

(** The conversion of an [int] of at most 53 bits is exact. *)
Lemma binary_round_int sx (mx : positive) :
  let d := Z.pos (digits2_pos mx) in
  d <= 53 ->
  exists mz, binary_round 53 1024 sx mx 0 = S754_finite sx mz (d - 53)
             /\ Z.pos mz = 2 ^ (53 - d) * Z.pos mx.
Proof.
  intros d Hd. unfold binary_round, shl_align. fold d.
  rewrite fexp_normal by lia. rewrite Z.add_0_r, Z.sub_0_r.
  assert (Haux : forall mz ez, ez = d - 53 -> Z.pos mz = 2 ^ (53 - d) * Z.pos mx ->
            binary_round_aux 53 1024 sx (Z.pos mz) ez loc_Exact = S754_finite sx mz ez).
  { intros mz ez -> Hmz.
    replace (Z.pos mz) with (2 ^ 0 * Z.pos mz) by (rewrite Z.pow_0_r; lia).
    replace (d - 53) with (d - 53 + 0) at 2 by lia.
    apply binary_round_aux_exact; [lia| |lia].
    rewrite Hmz, Zdigits2_shift by lia. cbn [Zdigits2]. fold d.
    rewrite fexp_normal by lia. lia. }
  destruct (d - 53) as [|k|k] eqn:Ek; try lia.
  - exists mx. replace (53 - d) with 0 in * by lia. rewrite Z.pow_0_r, Z.mul_1_l in *.
    split; [|reflexivity]. by apply Haux.
  - exists (Pos.iter xO mx k).
    assert (Hmz : Z.pos (Pos.iter xO mx k) = 2 ^ (53 - d) * Z.pos mx).
    { replace (53 - d) with (Z.pos k) by lia. apply (shift_pos_correct k mx). }
    split; [|exact Hmz]. by apply Haux.
Qed.

(** Three times a number has one or two digits more. *)
Lemma digits2_pos_triple (mx : positive) :
  Z.pos (digits2_pos mx) + 1 <= Z.pos (digits2_pos (mx * 3)) <= Z.pos (digits2_pos mx) + 2.
Proof.
  set (d := Z.pos (digits2_pos mx)). set (d3 := Z.pos (digits2_pos (mx * 3))).
  pose proof (digits2_pos_bounds mx) as [Hlow Hhigh]. fold d in Hlow, Hhigh.
  pose proof (digits2_pos_bounds (mx * 3)) as [Hlow3 Hhigh3]. fold d3 in Hlow3, Hhigh3.
  rewrite Pos2Z.inj_mul in Hlow3, Hhigh3.
  assert (Hd : 0 < d) by (unfold d; lia).
  assert (Hd3 : 0 < d3) by (unfold d3; lia).
  assert (Hstep : 2 ^ d = 2 * 2 ^ (d - 1))
    by (rewrite <- Z.pow_succ_r by lia; f_equal; lia).
  split.
  - destruct (Z.le_gt_cases (d + 1) d3) as [|Hlt]; [assumption|].
    assert (2 ^ d3 <= 2 ^ d) by (apply Z.pow_le_mono_r; lia). lia.
  - destruct (Z.le_gt_cases d3 (d + 2)) as [|Hgt]; [assumption|].
    assert (2 ^ (d + 2) <= 2 ^ (d3 - 1)) by (apply Z.pow_le_mono_r; lia).
    rewrite Z.pow_add_r in * by lia. change (2 ^ 2) with 4 in *. lia.
Qed.

(** The product of such a double with 1.5 is exact when three times the
    integer still has at most 53 bits. *)
Lemma SFmul_one_and_a_half sx (mx mz : positive) :
  let d := Z.pos (digits2_pos mx) in
  let d3 := Z.pos (digits2_pos (mx * 3)) in
  d3 <= 53 ->
  Z.pos mz = 2 ^ (53 - d) * Z.pos mx ->
  exists m, SFmul 53 1024 (S754_finite sx mz (d - 53)) one_and_a_half
            = S754_finite sx m (d3 - 54)
            /\ Z.pos m = 2 ^ (53 - d3) * (3 * Z.pos mx).
Proof.
  intros d d3 Hd3 Hmz.
  pose proof (digits2_pos_triple mx) as Htriple. fold d d3 in Htriple.
  assert (Hd : 0 < d) by (unfold d; lia).
  unfold SFmul, one_and_a_half. rewrite xorb_false_r.
  assert (Hpos : 0 < 2 ^ (53 - d3) * (3 * Z.pos mx))
    by (apply Z.mul_pos_pos; [apply Z.pow_pos_nonneg|]; lia).
  destruct (2 ^ (53 - d3) * (3 * Z.pos mx)) as [|m|m] eqn:Em; try lia.
  exists m. split; [|reflexivity].
  replace (Z.pos (mz * 3)) with (2 ^ (d3 - d) * Z.pos m).
  - replace (d3 - 54) with (d - 53 + -1 + (d3 - d)) by lia.
    apply binary_round_aux_exact; [lia| |lia].
    rewrite <- Em, Zdigits2_shift by lia.
    change (3 * Z.pos mx) with (Z.pos (3 * mx)). rewrite (Pos.mul_comm 3 mx).
    cbn [Zdigits2]. fold d3. rewrite fexp_normal by lia. lia.
  - rewrite <- Em, Pos2Z.inj_mul, Hmz, Z.mul_assoc, <- Z.pow_add_r by lia.
    replace (d3 - d + (53 - d3)) with (53 - d) by lia. ring.
Qed.

(** Within [exact_product] the product [bet * 1.5] does not raise, and the
    double it gives stands for the exact rational. *)
Lemma double_times_exact b :
  exact_product b ->
  exists x q, double_times b = Some x /\ float_value x = Some q /\ (q == times b (3 # 2))%Q.
Proof.
  unfold exact_product. intros Hb.
  assert (Hsign : forall sx (mx : positive), 3 * Z.pos mx < 2 ^ 53 ->
            exists m k,
              SFmul 53 1024 (binary_round 53 1024 sx mx 0) one_and_a_half
              = S754_finite sx m (Z.neg k)
              /\ binary_round 53 1024 sx mx 0 <> S754_infinity sx
              /\ Z.pos m * 2 = 3 * Z.pos mx * 2 ^ Z.pos k).
  { intros sx mx Hmx.
    pose proof (digits2_pos_triple mx) as Htriple.
    assert (Hd3 : Z.pos (digits2_pos (mx * 3)) <= 53).
    { apply digits2_pos_le. rewrite Pos2Z.inj_mul. lia. }
    destruct (binary_round_int sx mx) as (mz & -> & Hmz); [lia|].
    destruct (SFmul_one_and_a_half sx mx mz Hd3 Hmz) as (m & -> & Hm).
    destruct (Z.pos (digits2_pos (mx * 3)) - 54) as [|k|k] eqn:Ek; try lia.
    exists m, k. split; [reflexivity|]. split; [discriminate|].
    rewrite Hm. replace (Z.pos k) with (1 + (53 - Z.pos (digits2_pos (mx * 3)))) by lia.
    rewrite Z.pow_add_r, Z.pow_1_r by lia. ring. }
  unfold double_times, float_of_int, binary_normalize, times.
  destruct b as [|mx|mx].
  - exists (S754_zero false), 0%Q. by repeat split.
  - destruct (Hsign false mx ltac:(lia)) as (m & k & Hmul & Hfinite & Hvalue).
    destruct (binary_round 53 1024 false mx 0) as [s|s| |s mz ez] eqn:Eround;
      try (cbn [SFmul one_and_a_half] in Hmul; discriminate).
    eexists _, _. split; [by rewrite Hmul|]. split; [reflexivity|].
    rewrite Qred_correct. unfold Qeq. cbn [Qnum Qden inject_Z Qmult].
    rewrite Pos2Z.inj_pow. change (Z.pos (1 * 2)) with 2. lia.
  - destruct (Hsign true mx ltac:(lia)) as (m & k & Hmul & Hfinite & Hvalue).
    destruct (binary_round 53 1024 true mx 0) as [s|s| |s mz ez] eqn:Eround;
      try (cbn [SFmul one_and_a_half] in Hmul; discriminate).
    eexists _, _. split; [by rewrite Hmul|]. split; [reflexivity|].
    rewrite Qred_correct. unfold Qeq. cbn [Qnum Qden inject_Z Qmult].
    rewrite Pos2Z.inj_pow. change (Z.pos (1 * 2)) with 2. lia.
Qed.

Section Table.
Context `{Collaborators}.

(** ** Loops that report *)

(** When each turn of the loop appends its own messages, the loop appends
    them player by player. *)
Lemma for_each_output (msgs : Player -> list string)
  (body : BlackjackGame -> Player -> BlackjackGame * Player) :
  (forall s p, io_interface (body s p).1 = io_interface s ++ msgs p) ->
  forall ps s,
    io_interface (for_each body s ps).1 = io_interface s ++ concat (map msgs ps).
Proof.
  intros Hbody ps. induction ps as [|p ps IH]; intros s; simpl.
  - by rewrite app_nil_r.
  - specialize (Hbody s p). destruct (body s p) as [s1 p1]. simpl in *.
    specialize (IH s1). destruct (for_each body s1 ps) as [s2 ps2]. simpl in *.
    by rewrite IH, Hbody, <- app_assoc.
Qed.

(** ** Placing the bets *)

Lemma place_bets_effect (g : BlackjackGame) :
  players (PlacingBetsState_handle g) = map (fun p => place_bet p 10) (players g)
  /\ io_interface (PlacingBetsState_handle g)
     = io_interface g
       ++ map (fun p => name p +:+ " has placed a bet of 10.") (players g)
       ++ ["Changing state to DealingState."].
Proof.
  unfold PlacingBetsState_handle.
  pose proof (for_each_map (fun p => place_bet p 10) (PlacingBetsState_place_bet 10)
                (fun _ _ => eq_refl) (players g) g) as Hps.
  pose proof (for_each_output (fun p => [name p +:+ " has placed a bet of 10."])
                (PlacingBetsState_place_bet 10) (fun _ _ => eq_refl) (players g) g)
    as Hio.
  destruct (for_each _ g (players g)) as [g1 ps]. simpl in *.
  split; [exact Hps|]. rewrite Hio, <- app_assoc. f_equal. f_equal.
  clear. induction (players g) as [|p l IH]; simpl; congruence.
Qed.


(** Every seated player leaves [PlacingBetsState] with a bet of 10, whatever
    the bet was, and is otherwise the same; the io interface has received one
    line for each player, in seating order, and the change of state. *)
Theorem PlacingBetsState_handle_bets (g : BlackjackGame) :
  players (PlacingBetsState_handle g) = map (fun p => place_bet p 10) (players g)
  /\ io_interface (PlacingBetsState_handle g)
     = io_interface g
       ++ map (fun p => name p +:+ " has placed a bet of 10.") (players g)
       ++ ["Changing state to DealingState."].
Proof. apply place_bets_effect. Qed.

(** ** The deal *)

Lemma deal_players_cards ps :
  forall g g' ps', for_each_opt deal_to_player g ps = Some (g', ps') ->
    exists cards, length cards = length ps
      /\ deck g = cards ++ deck g'
      /\ ps' = zip_with add_card ps cards
      /\ dealer g' = dealer g.
Proof.
  induction ps as [|p ps IH]; intros g g' ps'; simpl.
  - intros [= <- <-]. by exists [].
  - unfold deal_to_player at 1, deal_card.
    destruct (deck g) as [|card rest] eqn:Edeck; [discriminate|].
    destruct (for_each_opt deal_to_player _ ps) as [[g2 ps2]|] eqn:Eloop; [|discriminate].
    intros [= <- <-]. apply IH in Eloop as (cards & Hlen & Hdeck & -> & Hdealer).
    exists (card :: cards). simpl in *. rewrite Hlen, Hdeck. by repeat split.
Qed.

Lemma deal_pass_cards g g' :
  deal_pass g = Some g' ->
  exists cards card, length cards = length (players g)
    /\ deck g = cards ++ card :: deck g'
    /\ players g' = zip_with add_card (players g) cards
    /\ dealer g' = dealer_add_card (dealer g) card.
Proof.
  unfold deal_pass.
  destruct (for_each_opt deal_to_player g (players g)) as [[g1 ps]|] eqn:Eloop;
    [|discriminate].
  apply deal_players_cards in Eloop as (cards & Hlen & Hdeck & -> & Hdealer).
  unfold deal_card. simpl. destruct (deck g1) as [|card rest] eqn:Edeck; [discriminate|].
  intros [= <-]. exists cards, card. simpl. rewrite Hdealer. by repeat split.
Qed.

Lemma deal_two_passes (shuffled : list Card) (g g' : BlackjackGame) :
  DealingState_deal shuffled g = Some g' ->
  exists first second card1 card2,
    shuffled = first ++ card1 :: second ++ card2 :: deck g'
    /\ length first = length (players g)
    /\ length second = length (players g)
    /\ players g' = zip_with add_card (zip_with add_card (players g) first) second
    /\ d_current_hand (dealer g')
       = d_current_hand (dealer g) ++ [card1; card2].
Proof.
  unfold DealingState_deal.
  destruct (deal_pass (with_deck g shuffled)) as [g1|] eqn:E1; [|discriminate].
  intros E2.
  apply deal_pass_cards in E1 as (first & card1 & Hl1 & Hd1 & Hp1 & Hdl1).
  apply deal_pass_cards in E2 as (second & card2 & Hl2 & Hd2 & Hp2 & Hdl2).
  simpl in *. exists first, second, card1, card2.
  rewrite Hd1, Hd2, Hp2, Hp1, Hdl2, Hdl1. repeat split; try assumption.
  - rewrite Hl2, Hp1, length_zip_with. lia.
  - simpl. by rewrite <- app_assoc.
Qed.


(** [deal] hands out the top of the shuffled deck in two passes over the
    seats, the dealer last in each: the deck is the cards of the first pass,
    the dealer's first card, the cards of the second pass, the dealer's second
    card and what is left; every hand receives its two cards at the end. *)
Theorem DealingState_deal_order (shuffled : list Card) (g g' : BlackjackGame) :
  DealingState_deal shuffled g = Some g' ->
  exists first second card1 card2,
    shuffled = first ++ card1 :: second ++ card2 :: deck g'
    /\ length first = length (players g)
    /\ length second = length (players g)
    /\ players g' = zip_with add_card (zip_with add_card (players g) first) second
    /\ d_current_hand (dealer g')
       = d_current_hand (dealer g) ++ [card1; card2].
Proof. apply deal_two_passes. Qed.


(** ** Naturals after the deal *)

Lemma check_dealer_blackjack_flag ps :
  forall g b,
    (for_each check_dealer_blackjack (g, b) ps).1.2
    = b && forallb (fun p => negb (blackjack p)) ps.
Proof.
  induction ps as [|p ps IH]; intros g b; simpl.
  - by rewrite andb_true_r.
  - destruct (blackjack p); simpl.
    + specialize (IH (with_stats g (add_draw (stats g))) false).
      destruct (for_each check_dealer_blackjack _ ps) as [[g2 b2] ps2].
      simpl in *. rewrite IH. by rewrite andb_false_r.
    + specialize (IH g b).
      destruct (for_each check_dealer_blackjack _ ps) as [[g2 b2] ps2].
      simpl in *. exact IH.
Qed.

Lemma check_player_blackjack_dealer ps :
  forall g, dealer (for_each check_player_blackjack g ps).1 = dealer g.
Proof.
  intros g.
  destruct (for_each_inv (fun s => dealer s = dealer g) (fun _ _ => True)
              check_player_blackjack) with (ps := ps) (s := g) as [Hd _];
    [|reflexivity|exact Hd].
  intros s p Hs. unfold check_player_blackjack. destruct (_ =? 21); by split.
Qed.

(** The dealer's own tag.  With 21 in the dealer's hand and nobody at the
    table holding 21 or the blackjack flag (an empty table included),
    [check_blackjack] tags the dealer "dealer"; as soon as one player holds
    21 or the flag, and whenever the dealer is not at 21, the dealer is left
    as it was. *)
Theorem check_blackjack_dealer_tag (g : BlackjackGame) :
  let dealer_value := value (d_current_hand (dealer g)) in
  let natural p := value (current_hand p) = 21 \/ blackjack p = true in
  (dealer_value = 21 -> Forall (fun p => ~ natural p) (players g) ->
   dealer (check_blackjack g) = mkDealer (d_current_hand (dealer g)) (Some "dealer"))
  /\ (dealer_value = 21 -> Exists natural (players g) ->
      dealer (check_blackjack g) = dealer g)
  /\ (dealer_value <> 21 -> dealer (check_blackjack g) = dealer g).
Proof.
  assert (Hflag : forall p, blackjack (natural_paid p)
                            = (value (current_hand p) =? 21) || blackjack p).
  { intros p. unfold natural_paid. by destruct (_ =? 21). }
  assert (Hnone : forall ps,
            forallb (fun p => negb (blackjack p)) (map natural_paid ps) = true
            <-> Forall (fun p => ~ (value (current_hand p) = 21 \/ blackjack p = true)) ps).
  { intros ps. induction ps as [|p ps IH]; simpl.
    - split; [constructor | reflexivity].
    - rewrite Forall_cons, andb_true_iff, IH, Hflag.
      destruct (Z.eqb_spec (value (current_hand p)) 21), (blackjack p); simpl;
        intuition congruence. }
  unfold check_blackjack.
  pose proof (for_each_map natural_paid check_player_blackjack
                check_player_blackjack_player (players g) g) as Hps.
  pose proof (check_player_blackjack_dealer (players g) g) as Hd.
  destruct (for_each check_player_blackjack g (players g)) as [g1 ps1].
  simpl in Hps, Hd. subst ps1. simpl. rewrite Hd.
  destruct (Z.eqb_spec (value (d_current_hand (dealer g))) 21) as [H21|H21].
  - pose proof (check_dealer_blackjack_flag (map natural_paid (players g))
                  (output (with_players g1 (map natural_paid (players g)))
                          "Dealer got a blackjack!") true) as Hb.
    pose proof (check_dealer_blackjack_loop (map natural_paid (players g))
                  (output (with_players g1 (map natural_paid (players g)))
                          "Dealer got a blackjack!") true) as (_ & Hd2 & _).
    destruct (for_each check_dealer_blackjack _ _) as [[g2 b2] ps2].
    simpl in Hb, Hd2. subst b2.
    split; [|split]; [| |done].
    + intros _ Hall. apply Hnone in Hall. rewrite Hall. simpl. by rewrite Hd2, Hd.
    + intros _ Hsome.
      destruct (forallb _ _) eqn:Eall; simpl; [|by rewrite Hd2, Hd].
      apply Hnone in Eall. apply Exists_exists in Hsome as (p & Hin & Hp).
      rewrite Forall_forall in Eall. by destruct (Eall p Hin).
  - simpl. split; [|split]; try done.
Qed.

(** With no 21 in the dealer's hand, and the bets of the players at 21 in
    the range where the double product [bet * 1.5] is exact,
    [check_blackjack] pays one and a half times the bet, once, to every
    player whose hand is worth 21, flags the player and tags it "player"; it
    leaves every other player and the statistics as they were.  The amount
    is the double that [bet * 1.5] evaluates to in the code, which does not
    raise. *)
Theorem check_blackjack_pays_naturals (g : BlackjackGame) (i : nat) (p : Player) :
  Forall (fun q => value (current_hand q) = 21 -> exact_product (bet q)) (players g) ->
  value (d_current_hand (dealer g)) <> 21 ->
  players g !! i = Some p ->
  stats (check_blackjack g) = stats g
  /\ exists r,
      players (check_blackjack g) !! i = Some r
      /\ (value (current_hand p) = 21 ->
          payouts r = payouts p ++ [times (bet p) (3 # 2)]
          /\ (exists product amount,
                double_times (bet p) = Some product
                /\ float_value product = Some amount
                /\ (amount == times (bet p) (3 # 2))%Q)
          /\ blackjack r = true /\ winner r = Some "player"
          /\ bet r = bet p /\ current_hand r = current_hand p)
      /\ (value (current_hand p) <> 21 -> r = p).
Proof.
  intros Hbets Hdealer Hp.
  destruct (check_blackjack_effect g) as (Hps & _ & _ & _ & Hs).
  apply Z.eqb_neq in Hdealer. rewrite Hdealer in Hps, Hs. split.
  - rewrite Hs, Z.add_0_r. by destruct (stats g).
  - exists (natural_paid p). rewrite Hps, list_lookup_fmap, Hp.
    split; [reflexivity|]. unfold natural_paid. split.
    + intros Hv. pose proof (Forall_lookup_1 _ _ _ _ Hbets Hp Hv) as Hexact.
      apply Z.eqb_eq in Hv. rewrite Hv. simpl.
      repeat split. by apply double_times_exact.
    + intros Hv. apply Z.eqb_neq in Hv. by rewrite Hv.
Qed.

(** ** The insurance offer *)

(** The handler of [OfferInsuranceState] raises exactly when the dealer has
    no card to show. *)
Theorem OfferInsuranceState_handle_no_card (g : BlackjackGame) :
  OfferInsuranceState_handle g = None <-> d_current_hand (dealer g) = [].
Proof.
  split.
  - intros Hnone. destruct (d_current_hand (dealer g)) eqn:Ehand; [reflexivity|].
    destruct (OfferInsuranceState_handle_ok g) as [g' Hsome]; [by rewrite Ehand|].
    congruence.
  - intros Hempty. unfold OfferInsuranceState_handle.
    pose proof (for_each_inv (fun s => dealer s = dealer g) (fun _ _ => True)
                  offer_insurance) as Hinv.
    destruct Hinv with (ps := players g) (s := g) as [Hd _]; [|reflexivity|].
    { intros s p Hs. unfold offer_insurance. destruct (has_ace _); simpl; by split. }
    destruct (for_each offer_insurance g (players g)) as [g1 ps]. simpl in *.
    by rewrite Hd, Hempty.
Qed.

(** ** The players' turn *)

Lemma player_loop_drawn cards :
  forall g p g' p', player_loop cards g p = Some (g', p') ->
    exists drawn, cards = drawn ++ deck g'
      /\ dealer g' = dealer g
      /\ turn_played p p' drawn.
Proof.
  induction cards as [|card cards IH]; intros g p g' p'; simpl;
    unfold is_done; destruct (done p) eqn:Edone.
  - intros [= <- <-]. exists []. simpl. destruct p; simpl in *.
    subst. unfold turn_played. repeat split; simpl in *; intros;
      first [reflexivity | lia | by rewrite app_nil_r].
  - destruct (String.eqb _ "hit"); [discriminate|].
    destruct (String.eqb _ "stand"); [|discriminate].
    intros [= <- <-]. exists []. simpl. unfold turn_played.
    repeat split; simpl in *; intros;
      first [reflexivity | lia | by rewrite app_nil_r | unfold is_done in *; congruence].
  - intros [= <- <-]. exists []. simpl. destruct p; simpl in *.
    subst. unfold turn_played. repeat split; simpl in *; intros;
      first [reflexivity | lia | by rewrite app_nil_r].
  - destruct (String.eqb_spec (decide_action (current_hand p)) "hit") as [Ehit|_].
    + assert (Hfirst : forall drawn k, (k < length (card :: drawn))%nat ->
                (forall j, (j < length drawn)%nat ->
                   decide_action ((current_hand p ++ [card]) ++ take j drawn) = "hit") ->
                decide_action (current_hand p ++ take k (card :: drawn)) = "hit").
      { intros drawn [|k] Hk Hrest; simpl.
        - by rewrite app_nil_r.
        - simpl in Hk. rewrite (Hrest k ltac:(lia)) || rewrite <- (Hrest k ltac:(lia)).
          all: try reflexivity.
          rewrite <- app_assoc. reflexivity. }
      unfold is_busted. simpl.
      destruct (Z.ltb_spec 21 (value (current_hand p ++ [card]))) as [Hbust|Hok].
      { intros [= <- <-]. exists [card]. simpl.
        split; [reflexivity|]. split; [reflexivity|].
        split; [reflexivity|]. split; [unfold is_done; congruence|]. split.
        - intros k Hk. apply (Hfirst [] k Hk). intros j Hj. simpl in Hj. lia.
        - intros k Hk. simpl in Hk. lia. }
      destruct (Z.eqb_spec (value (current_hand p ++ [card])) 21) as [H21|Hne].
      { intros [= <- <-]. exists [card]. simpl.
        split; [reflexivity|]. split; [reflexivity|].
        split; [reflexivity|]. split; [unfold is_done; congruence|]. split.
        - intros k Hk. apply (Hfirst [] k Hk). intros j Hj. simpl in Hj. lia.
        - intros k Hk. simpl in Hk. lia. }
      intros Hrun. apply IH in Hrun as (drawn & -> & Hdealer & -> & _ & Hhits & Hbelow).
      exists (card :: drawn). simpl in *.
      split; [reflexivity|]. split; [exact Hdealer|].
      split; [by rewrite <- app_assoc|]. split; [unfold is_done; congruence|]. split.
      * intros k Hk. apply (Hfirst drawn k Hk). intros j Hj. by apply Hhits.
      * intros [|[|k]] Hk.
        -- simpl in Hk. lia.
        -- simpl. rewrite take_0. lia.
        -- simpl in Hk. specialize (Hbelow (S k) ltac:(lia)).
           by rewrite <- app_assoc in Hbelow.
    + destruct (String.eqb _ "stand"); [|discriminate].
      intros [= <- <-]. exists []. simpl. unfold turn_played.
      repeat split; simpl in *; intros;
      first [reflexivity | lia | by rewrite app_nil_r | unfold is_done in *; congruence].
Qed.

Lemma players_turn_drawn ps :
  forall g g' ps', for_each_opt player_turn g ps = Some (g', ps') ->
    exists draws, deck g = concat draws ++ deck g'
      /\ dealer g' = dealer g
      /\ Forall3 turn_played ps ps' draws.
Proof.
  induction ps as [|p ps IH]; intros g g' ps'; simpl.
  - intros [= <- <-]. exists []. repeat split. constructor.
  - destruct (player_turn g p) as [[g1 p1]|] eqn:Eturn; [|discriminate].
    destruct (for_each_opt player_turn g1 ps) as [[g2 ps2]|] eqn:Eloop; [|discriminate].
    intros [= <- <-].
    apply player_loop_drawn in Eturn as (drawn & Hdeck & Hdealer & Hturn).
    apply IH in Eloop as (draws & Hdeck' & Hdealer' & Hall).
    exists (drawn :: draws). simpl. rewrite Hdeck, Hdeck', <- app_assoc.
    repeat split; [congruence|]. by constructor.
Qed.

(** When the handler of [PlayersTurnState] returns, every player stands.
    The cards the players drew, taken in seating order, are the top of the
    deck, and what is left of the deck follows them; each player has its
    cards at the end of its hand, drew each of them on a "hit" of its policy
    and from a hand below 21 once it had drawn, and drew nothing when it was
    done before its turn.  Bets, flags, tags and payouts are the same, and
    so is the dealer. *)
Theorem PlayersTurnState_handle_draws (g g' : BlackjackGame) :
  PlayersTurnState_handle g = Some g' ->
  exists draws,
    deck g = concat draws ++ deck g'
    /\ dealer g' = dealer g
    /\ Forall (fun r => is_done r = true) (players g')
    /\ Forall3 turn_played (players g) (players g') draws.
Proof.
  unfold PlayersTurnState_handle.
  destruct (for_each_opt player_turn g (players g)) as [[g1 ps]|] eqn:Eloop;
    [|discriminate].
  intros [= <-]. apply players_turn_drawn in Eloop as (draws & Hdeck & Hdealer & Hall).
  exists draws. simpl. repeat split; try assumption.
  clear -Hall. induction Hall as [|p r drawn ps rs draws (-> & _) _ IH]; by constructor.
Qed.

(** ** The dealer's turn *)

Lemma dealer_loop_least cards :
  forall g g', dealer_loop cards g = Some g' ->
    exists k, (k <= length cards)%nat
      /\ dealer g' = mkDealer (d_current_hand (dealer g) ++ take k cards)
                              (d_winner (dealer g))
      /\ deck g' = drop k cards
      /\ players g' = players g
      /\ should_hit (d_current_hand (dealer g) ++ take k cards) = false
      /\ (forall j, (j < k)%nat ->
            should_hit (d_current_hand (dealer g) ++ take j cards) = true).
Proof.
  induction cards as [|card cards IH]; intros g g'; simpl;
    destruct (should_hit (d_current_hand (dealer g))) eqn:Ehit; try discriminate.
  - intros [= <-]. exists 0%nat. simpl. rewrite app_nil_r.
    repeat split; try assumption; try lia. by destruct (dealer g).
  - intros Hrun. apply IH in Hrun as (k & Hk & Hd & Hdeck & Hps & Hstop & Hhits).
    simpl in *. rewrite <- app_assoc in *. simpl in *.
    exists (S k). simpl. repeat split; try assumption; try lia.
    intros [|j] Hj; simpl; [by rewrite app_nil_r|].
    specialize (Hhits j ltac:(lia)). by rewrite <- app_assoc in Hhits.
  - intros [= <-]. exists 0%nat. simpl. rewrite app_nil_r.
    repeat split; try assumption; try lia. by destruct (dealer g).
Qed.

Lemma dealer_loop_exhausted cards :
  forall g, dealer_loop cards g = None
    <-> forall k, (k <= length cards)%nat ->
          should_hit (d_current_hand (dealer g) ++ take k cards) = true.
Proof.
  induction cards as [|card cards IH]; intros g; simpl;
    destruct (should_hit (d_current_hand (dealer g))) eqn:Ehit.
  - split; [|reflexivity]. intros _ k Hk. by rewrite take_nil, app_nil_r.
  - split; [discriminate|]. intros Hall.
    specialize (Hall 0%nat ltac:(lia)). rewrite app_nil_r in Hall. congruence.
  - rewrite IH. simpl. split.
    + intros Hall [|k] Hk; simpl; [by rewrite app_nil_r|].
      specialize (Hall k ltac:(lia)). by rewrite <- app_assoc in Hall.
    + intros Hall k Hk. specialize (Hall (S k) ltac:(simpl; lia)).
      simpl in Hall. by rewrite <- app_assoc.
  - split; [discriminate|]. intros Hall.
    specialize (Hall 0%nat ltac:(lia)). simpl in Hall. rewrite app_nil_r in Hall.
    congruence.
Qed.

(** When the handler of [DealersTurnState] returns, the dealer has taken the
    smallest number of cards from the top of the deck after which the policy
    no longer says hit: the policy said hit before each of them and says
    stand on the final hand.  The cards are at the end of the dealer's hand,
    the deck has lost exactly them, and the players are the same. *)
Theorem DealersTurnState_handle_least (g g' : BlackjackGame) :
  DealersTurnState_handle g = Some g' ->
  exists k, (k <= length (deck g))%nat
    /\ dealer g' = mkDealer (d_current_hand (dealer g) ++ take k (deck g))
                            (d_winner (dealer g))
    /\ deck g' = drop k (deck g)
    /\ players g' = players g
    /\ should_hit (d_current_hand (dealer g) ++ take k (deck g)) = false
    /\ (forall j, (j < k)%nat ->
          should_hit (d_current_hand (dealer g) ++ take j (deck g)) = true).
Proof.
  unfold DealersTurnState_handle.
  destruct (dealer_loop (deck g) g) as [last|] eqn:Eloop; [|discriminate].
  intros [= <-].
  apply dealer_loop_least in Eloop as (k & Hk & Hd & Hdeck & Hps & Hstop & Hhits).
  exists k. simpl. repeat split; assumption.
Qed.

(** The handler of [DealersTurnState] raises, on an exhausted deck, exactly
    when the policy says hit on the dealer's hand and goes on saying hit
    after every card of the deck. *)
Theorem DealersTurnState_handle_exhausted (g : BlackjackGame) :
  DealersTurnState_handle g = None
  <-> forall k, (k <= length (deck g))%nat ->
        should_hit (d_current_hand (dealer g) ++ take k (deck g)) = true.
Proof.
  rewrite <- dealer_loop_exhausted. unfold DealersTurnState_handle.
  destruct (dealer_loop (deck g) g); split; congruence.
Qed.

(** ** The end of the round *)

Lemma update_stats (g : BlackjackGame) :
  let tagged tag := Exists (fun p => winner p = Some tag) (players g) in
  let s := stats g in
  let s' := stats (update g) in
  games_played s' = games_played s + 1
  /\ ((tagged "player" -> player_wins s' = player_wins s + 1)
      /\ (~ tagged "player" -> player_wins s' = player_wins s))
  /\ ((tagged "dealer" -> dealer_wins s' = dealer_wins s + 1)
      /\ (~ tagged "dealer" -> dealer_wins s' = dealer_wins s))
  /\ ((tagged "draw" -> draws s' = draws s + 1)
      /\ (~ tagged "draw" -> draws s' = draws s)).
Proof.
  destruct g as [ps io d r dk st [gp pw dw dr]]. simpl.
  split; [reflexivity|].
  repeat split; apply incr_if_spec, existsb_winner_is.
Qed.

(** The statistics of a round count the outcomes of that round only: the
    handler of [EndRoundState] adds 1 to [games_played], and 1 to
    [player_wins], [dealer_wins] or [draws] exactly when the comparison with
    the dealer's final hand gives that outcome to some player.  A tag left
    from the deal plays no part; at an empty table only [games_played]
    moves. *)
Theorem EndRoundState_handle_counts (g : BlackjackGame) :
  let outcome tag :=
    Exists (fun p => (verdict (value (d_current_hand (dealer g)))
                              (value (current_hand p)) (bet p)).1 = tag)
           (players g) in
  let s := stats g in
  let s' := stats (EndRoundState_handle g) in
  games_played s' = games_played s + 1
  /\ ((outcome "player" -> player_wins s' = player_wins s + 1)
      /\ (~ outcome "player" -> player_wins s' = player_wins s))
  /\ ((outcome "dealer" -> dealer_wins s' = dealer_wins s + 1)
      /\ (~ outcome "dealer" -> dealer_wins s' = dealer_wins s))
  /\ ((outcome "draw" -> draws s' = draws s + 1)
      /\ (~ outcome "draw" -> draws s' = draws s)).
Proof.
  cbv zeta. unfold EndRoundState_handle.
  destruct (calculate_winner_effect g) as (_ & Hs & _).
  pose proof (update_stats (calculate_winner g)) as Hu. cbv zeta in Hu.
  rewrite Hs, calculate_winner_players in Hu.
  assert (Htag : forall tag,
            Exists (fun p => winner p = Some tag)
                   (map (settled (value (d_current_hand (dealer g)))) (players g))
            <-> Exists (fun p => (verdict (value (d_current_hand (dealer g)))
                                          (value (current_hand p)) (bet p)).1 = tag)
                       (players g)).
  { intros tag. rewrite Exists_fmap.
    split; intros Hsome; (eapply Exists_impl; [exact Hsome|]);
      intros p; simpl; congruence. }
  rewrite !Htag in Hu. tauto.
Qed.

(** ** A round started too early *)

(** [play_round] called while the game is still in [WaitingForPlayersState]
    never returns: the handler of that state is a coroutine, the call does
    not run it, and the loop sees the same state again and again. *)
Theorem play_round_waiting (fuel : nat) (shuffled : list Card) (g : BlackjackGame) :
  current_state g = WaitingForPlayersState ->
  play_round fuel shuffled g = None.
Proof.
  intros Hst. unfold play_round. by rewrite play_round_loop_waiting.
Qed.

(** ** Seats, hands and payouts *)

Lemma seat_kept_refl p : seat_kept p p.
Proof. by repeat split. Qed.

Lemma seat_kept_trans p q r : seat_kept p q -> seat_kept q r -> seat_kept p r.
Proof.
  intros (Hn & Hh & Hp) (Hn' & Hh' & Hp'). repeat split.
  - congruence.
  - by transitivity (current_hand q).
  - by transitivity (payouts q).
Qed.

Lemma Forall2_map_same {A} (R : A -> A -> Prop) (f : A -> A) (l : list A) :
  (forall x, R x (f x)) -> Forall2 R l (map f l).
Proof. intros Hf. induction l; constructor; auto. Qed.

Lemma calculate_winner_dealer g : dealer (calculate_winner g) = dealer g.
Proof.
  unfold calculate_winner.
  set (d := value _). set (g1 := output (output g _) _).
  destruct (for_each_inv (fun s => dealer s = dealer g) (fun _ _ => True) (settle d))
    with (ps := players g1) (s := g1) as [Hd _]; [|reflexivity|].
  { intros s p Hs. unfold settle.
    repeat match goal with |- context [if ?c then _ else _] => destruct c end;
      by split. }
  destruct (for_each (settle d) g1 (players g1)) as [g2 ps]. exact Hd.
Qed.

(** A seat is kept together with the bet. *)
Local Abbreviation seat_and_bet :=
  (fun p r : Player => seat_kept p r /\ bet r = bet p).

Lemma seat_and_bet_trans ps qs rs :
  Forall2 seat_and_bet ps qs -> Forall2 seat_and_bet qs rs ->
  Forall2 seat_and_bet ps rs.
Proof.
  apply Forall2_trans. intros p q r [Hk Hb] [Hk' Hb'].
  split; [by eapply seat_kept_trans | congruence].
Qed.

Lemma handle_seats (shuffled : list Card) (g g' : BlackjackGame) :
  handle shuffled g = Some g' ->
  Forall2 (fun p r => seat_kept p r
                      /\ (current_state g <> PlacingBetsState -> bet r = bet p))
          (players g) (players g')
  /\ d_current_hand (dealer g) `prefix_of` d_current_hand (dealer g')
  /\ (current_state g <> DealingState -> current_state g <> DealersTurnState ->
      dealer g' = dealer g)
  /\ (current_state g = DealingState ->
      length (d_current_hand (dealer g')) = (length (d_current_hand (dealer g)) + 2)%nat).
Proof.
  assert (Hweaken : forall ps rs, Forall2 seat_and_bet ps rs ->
            Forall2 (fun p r => seat_kept p r
                       /\ (current_state g <> PlacingBetsState -> bet r = bet p)) ps rs).
  { intros ps rs Hall. eapply Forall2_impl; [exact Hall|]. intros p r [Hk Hb]. by split. }
  unfold handle. destruct (current_state g) eqn:Est.
  - intros [= <-]. split; [|done].
    apply Hweaken, Forall_Forall2_diag, Forall_forall. intros p _.
    split; [apply seat_kept_refl | done].
  - intros [= <-]. destruct (place_bets_effect g) as [-> _].
    assert (Hd : dealer (PlacingBetsState_handle g) = dealer g).
    { unfold PlacingBetsState_handle.
      destruct (for_each_inv (fun s => dealer s = dealer g) (fun _ _ => True)
                  (PlacingBetsState_place_bet 10))
        with (ps := players g) (s := g) as [Hd _]; [by split|reflexivity|].
      by destruct (for_each _ g (players g)). }
    rewrite Hd. split; [|done].
    apply Forall2_map_same. intros p. split; [|done]. by repeat split.
  - unfold DealingState_handle.
    destruct (DealingState_deal shuffled g) as [g1|] eqn:Edeal; [|discriminate].
    intros [= <-].
    apply deal_two_passes in Edeal
      as (first & second & c1 & c2 & _ & Hl1 & Hl2 & Hps & Hd).
    destruct (check_blackjack_effect g1) as (Hps' & _ & _ & Hd' & _).
    simpl. rewrite Hd', Hd.
    split; [|split; [by apply prefix_app_r | split; [done|]]];
      [|intros _; rewrite length_app; simpl; lia].
    apply Hweaken.
    assert (Hdealt : Forall2 seat_and_bet (players g) (players g1)).
    { rewrite Hps. clear -Hl1 Hl2. revert first second Hl1 Hl2.
      induction (players g) as [|p ps IH]; intros [|a first] [|b second] Hl1 Hl2;
        simpl in *; try discriminate; constructor.
      - repeat split; simpl; try done. rewrite <- app_assoc. by apply prefix_app_r.
      - apply IH; lia. }
    assert (Hpaid : forall p, seat_and_bet p (natural_paid p)).
    { intros p. unfold natural_paid.
      destruct (value (current_hand p) =? 21); repeat split; simpl; try done.
      by apply prefix_app_r. }
    assert (Hflag : forall p, seat_and_bet p (dealer_natural_flagged p)).
    { intros p. unfold dealer_natural_flagged. destruct (blackjack p); by repeat split. }
    rewrite Hps'. apply (seat_and_bet_trans _ _ _ Hdealt).
    destruct (_ =? 21); [|by apply Forall2_map_same].
    eapply seat_and_bet_trans; by apply Forall2_map_same.
  - unfold OfferInsuranceState_handle.
    destruct (for_each_inv (fun s => dealer s = dealer g) seat_and_bet offer_insurance)
      with (ps := players g) (s := g) as [Hd Hall]; [|reflexivity|].
    { intros s p Hs. unfold offer_insurance. destruct (has_ace _); simpl; by repeat split. }
    destruct (for_each offer_insurance g (players g)) as [g1 ps]. simpl in *.
    destruct (d_current_hand (dealer g1)); [discriminate|]. intros [= <-]. simpl.
    rewrite Hd. split; [by apply Hweaken | done].
  - unfold PlayersTurnState_handle.
    destruct (for_each_opt player_turn g (players g)) as [[g1 ps]|] eqn:Eloop;
      [|discriminate].
    intros [= <-]. apply players_turn_drawn in Eloop as (draws & _ & Hd & Hall).
    simpl. rewrite Hd. split; [|done]. apply Hweaken.
    clear -Hall. induction Hall as [|p r drawn ps rs draws (-> & _) _ IH];
      constructor; [|exact IH].
    repeat split; simpl; try done. by apply prefix_app_r.
  - unfold DealersTurnState_handle.
    destruct (dealer_loop (deck g) g) as [g1|] eqn:Eloop; [|discriminate].
    intros [= <-]. apply dealer_loop_least in Eloop as (k & _ & Hd & _ & Hps & _).
    simpl. rewrite Hd, Hps. simpl.
    split; [|split; [by apply prefix_app_r | split; intros; congruence]].
    apply Hweaken, Forall_Forall2_diag, Forall_forall. intros p _.
    split; [apply seat_kept_refl | done].
  - intros [= <-]. unfold EndRoundState_handle.
    assert (Hd : dealer (update (calculate_winner g)) = dealer g)
      by (transitivity (dealer (calculate_winner g));
          [by destruct (calculate_winner g) | apply calculate_winner_dealer]).
    assert (Hps : players (update (calculate_winner g))
                  = map (fun p => set_winner p None) (players (calculate_winner g)))
      by by destruct (calculate_winner g).
    rewrite Hd, Hps, calculate_winner_players. split; [|done]. apply Hweaken.
    rewrite <- list_fmap_compose. apply Forall2_map_same. intros p.
    repeat split; simpl; try done. by apply prefix_app_r.
Qed.

(** Nobody changes seat, loses a card or loses a payout in a handler: the
    players come out in the same order under the same names, each hand and
    each list of payouts continues the one before, and so does the dealer's
    hand.  The bets are touched by the handler of [PlacingBetsState] only,
    the dealer by those of [DealingState] and [DealersTurnState] only. *)
Theorem handle_keeps_seats (shuffled : list Card) (g g' : BlackjackGame) :
  handle shuffled g = Some g' ->
  Forall2 (fun p r => seat_kept p r
                      /\ (current_state g <> PlacingBetsState -> bet r = bet p))
          (players g) (players g')
  /\ d_current_hand (dealer g) `prefix_of` d_current_hand (dealer g')
  /\ (current_state g <> DealingState -> current_state g <> DealersTurnState ->
      dealer g' = dealer g).
Proof.
  intros Hrun. destruct (handle_seats _ _ _ Hrun) as (Hseats & Hprefix & Hdealer & _).
  by repeat split.
Qed.

(** ** Whole rounds *)

Lemma play_round_seats fuel shuffled g g' :
  play_round fuel shuffled g = Some g' ->
  Forall2 seat_kept (players g) (players g')
  /\ d_current_hand (dealer g) `prefix_of` d_current_hand (dealer g')
  /\ (current_state g = PlacingBetsState ->
      Forall (fun r => bet r = 10) (players g')
      /\ (length (d_current_hand (dealer g)) + 2
          <= length (d_current_hand (dealer g')))%nat).
Proof.
  unfold play_round. intros Hrun.
  destruct (play_round_loop fuel shuffled g) as [g1|] eqn:Eloop; [|discriminate].
  apply (play_round_loop_inv
           (fun s => Forall2 seat_kept (players g) (players s)
                     /\ d_current_hand (dealer g) `prefix_of` d_current_hand (dealer s)
                     /\ (current_state g = PlacingBetsState ->
                         current_state s <> WaitingForPlayersState
                         /\ ((steps_to_end (current_state s) <= 4)%nat ->
                             Forall (fun r => bet r = 10) (players s))
                         /\ ((steps_to_end (current_state s) <= 3)%nat ->
                             (length (d_current_hand (dealer g)) + 2
                              <= length (d_current_hand (dealer s)))%nat)))) in Eloop
    as [(Hseats & Hprefix & Hstart) Hend].
  - destruct (handle_seats _ _ _ Hrun) as (Hstep & Hprefix' & Hdealer & _).
    simpl in *. rewrite Hend in *.
    split; [|split].
    + eapply Forall2_trans; [|exact Hseats|exact Hstep].
      intros p q r Hpq [Hqr _]. by eapply seat_kept_trans.
    + by transitivity (d_current_hand (dealer g1)).
    + intros Hst. destruct (Hstart Hst) as (_ & Hbets & Hcards).
      rewrite Hdealer by discriminate. split; [|apply Hcards; simpl; lia].
      specialize (Hbets ltac:(simpl; lia)).
      clear -Hbets Hstep. induction Hstep as [|q r qs rs [_ Hb] _ IH]; [constructor|].
      apply Forall_cons in Hbets as [Hq Hqs]. constructor; [|by apply IH].
      rewrite Hb by discriminate. exact Hq.
  - intros s msg. simpl. tauto.
  - intros s s' Hne (Hseats & Hprefix & Hstart) Hstep.
    destruct (handle_seats _ _ _ Hstep) as (Hseats' & Hprefix' & _ & Hdealt).
    destruct (handle_effect _ _ _ Hstep) as (_ & _ & Hnext & _).
    split; [|split].
    + eapply Forall2_trans; [|exact Hseats|exact Hseats'].
      intros p q r Hpq [Hqr _]. by eapply seat_kept_trans.
    + by transitivity (d_current_hand (dealer s)).
    + intros Hst. destruct (Hstart Hst) as (Hw & Hbets & Hcards).
      rewrite (Hnext Hw).
      assert (Hlen : (length (d_current_hand (dealer s))
                      <= length (d_current_hand (dealer s')))%nat)
        by (destruct Hprefix' as [k ->]; rewrite length_app; lia).
      assert (Hkeep : current_state s <> PlacingBetsState ->
                Forall (fun r => bet r = 10) (players s) ->
                Forall (fun r => bet r = 10) (players s')).
      { intros Hnp Hall. clear -Hall Hseats' Hnp.
        induction Hseats' as [|q r qs rs [_ Hb] _ IH]; [constructor|].
        apply Forall_cons in Hall as [Hq Hqs]. constructor; [|by apply IH].
        rewrite Hb by assumption. exact Hq. }
      assert (Hprefix0 : (length (d_current_hand (dealer g))
                          <= length (d_current_hand (dealer s)))%nat)
        by (destruct Hprefix as [k ->]; rewrite length_app; lia).
      destruct (current_state s) eqn:Est; try congruence; simpl in *;
        (split; [discriminate|]); split; intros Hle; try lia;
        try (apply Hkeep; [discriminate | apply Hbets; lia]);
        try (specialize (Hcards ltac:(lia)); lia).
      * unfold handle in Hstep. rewrite Est in Hstep. injection Hstep as <-.
        destruct (place_bets_effect s) as [-> _].
        apply Forall_fmap, Forall_true. reflexivity.
      * specialize (Hdealt eq_refl). lia.
  - split; [|split].
    + apply Forall_Forall2_diag, Forall_true. apply seat_kept_refl.
    + done.
    + intros ->. split; [discriminate|]. simpl. split; intros; lia.
Qed.

(** A round played from [PlacingBetsState] leaves every player with a bet of
    10 and the dealer with at least two cards more than before; whatever
    the state the round is started in, the players come out in the same
    order under the same names, and hands and payouts have only grown. *)
Theorem play_round_keeps_seats (fuel : nat) (shuffled : list Card)
  (g g' : BlackjackGame) :
  play_round fuel shuffled g = Some g' ->
  Forall2 seat_kept (players g) (players g')
  /\ d_current_hand (dealer g) `prefix_of` d_current_hand (dealer g')
  /\ (current_state g = PlacingBetsState ->
      Forall (fun r => bet r = 10) (players g')
      /\ (length (d_current_hand (dealer g)) + 2
          <= length (d_current_hand (dealer g')))%nat).
Proof. apply play_round_seats. Qed.

(** ** Seating the players *)

(** [add_player] raises, on the missing key, exactly when it is given a
    player and the rules have no "max_players"; a [None] player is turned
    away before the rules are read. *)
Theorem add_player_missing_limit (g : BlackjackGame) (player : option Player) :
  add_player g player = None
  <-> is_Some player /\ rules g !! "max_players" = None.
Proof.
  unfold add_player. destruct player as [p|].
  - destruct (rules g !! "max_players") as [m|].
    + split; [|by intros [_ ?]].
      destruct (m <=? _); [discriminate|]. by destruct (negb _).
    + split; [|done]. intros _. by split; [eexists|].
  - split; [discriminate|]. by intros [[? ?] _].
Qed.

Lemma add_players_seated ps :
  forall g max_players,
    rules g !! "max_players" = Some max_players ->
    current_state g = WaitingForPlayersState ->
    exists g', add_players g ps = Some g'
      /\ players g' = players g ++ take (Z.to_nat max_players - length (players g)) ps
      /\ current_state g' = WaitingForPlayersState
      /\ rules g' = rules g /\ stats g' = stats g /\ dealer g' = dealer g
      /\ deck g' = deck g.
Proof.
  induction ps as [|p ps IH]; intros g m Hm Hst; simpl.
  - exists g. rewrite take_nil, app_nil_r. by repeat split.
  - rewrite Hm.
    destruct (Z.leb_spec m (Z.of_nat (length (players g)))) as [Hfull|Hroom].
    + destruct (IH (output g "Game is full.") m Hm Hst)
        as (g' & -> & Hps & Hst' & Hr & Hs & Hd & Hdk).
      exists g'. simpl in *.
      replace (Z.to_nat m - length (players g))%nat with 0%nat in * by lia.
      by repeat split.
    + rewrite Hst. simpl. unfold state_add_player. rewrite Hst.
      destruct (IH (WaitingForPlayersState_add_player g p) m Hm Hst)
        as (g' & -> & Hps & Hst' & Hr & Hs & Hd & Hdk).
      exists g'. simpl in *. rewrite length_app in Hps. simpl in Hps.
      replace (Z.to_nat m - length (players g))%nat
        with (S (Z.to_nat m - (length (players g) + 1)))%nat by lia.
      simpl. rewrite <- app_assoc in Hps. by repeat split.
Qed.

(** Players added one after the other to a game that waits for players are
    seated in the order they come, as long as there is room: the table ends
    up with the players it had and the first of the newcomers, up to
    [max_players] in all; the others are turned away and nothing raises. *)
Theorem add_players_first_come (g : BlackjackGame) (ps : list Player)
  (max_players : Z) :
  rules g !! "max_players" = Some max_players ->
  current_state g = WaitingForPlayersState ->
  exists g', add_players g ps = Some g'
    /\ players g' = players g ++ take (Z.to_nat max_players - length (players g)) ps
    /\ current_state g' = WaitingForPlayersState.
Proof.
  intros Hm Hst.
  destruct (add_players_seated ps g max_players Hm Hst) as (g' & Hrun & Hps & Hst' & _).
  by exists g'.
Qed.

(** ** Many rounds *)

Lemma simulate_effect new_deck rounds :
  forall g g', current_state g = PlacingBetsState ->
    simulate new_deck rounds g = Some g' ->
    current_state g' = PlacingBetsState
    /\ rules g' = rules g
    /\ map name (players g') = map name (players g)
    /\ games_played (stats g') = games_played (stats g) + Z.of_nat (length rounds)
    /\ player_wins (stats g) <= player_wins (stats g')
       <= player_wins (stats g) + Z.of_nat (length rounds)
    /\ dealer_wins (stats g) <= dealer_wins (stats g')
       <= dealer_wins (stats g) + Z.of_nat (length rounds)
    /\ draws (stats g) <= draws (stats g')
    /\ d_current_hand (dealer g) `prefix_of` d_current_hand (dealer g')
    /\ (length (d_current_hand (dealer g)) + 2 * length rounds
        <= length (d_current_hand (dealer g')))%nat.
Proof.
  induction rounds as [|shuffled rounds IH]; intros g g' Hst; simpl.
  - intros [= <-]. repeat split; try done; lia.
  - destruct (play_round 6 shuffled g) as [g1|] eqn:Eround; [|discriminate].
    intros Hrest.
    destruct (play_round_effect _ _ _ _ Eround) as (Hr & _ & Hst1 & Hgp & Hpw & Hdw & Hdr).
    destruct (play_round_seats _ _ _ _ Eround) as (Hseats & Hprefix & Hstart).
    destruct (Hstart Hst) as [_ Hcards].
    apply IH in Hrest as (Hst' & Hr' & Hn' & Hgp' & Hpw' & Hdw' & Hdr' & Hprefix' & Hcards');
      [|exact Hst1].
    simpl in *. rewrite map_map in Hn'. simpl in Hn'.
    repeat split; try congruence; try lia.
    + rewrite Hn'. clear -Hseats.
      induction Hseats as [|p r ps rs (Hname & _) _ IH]; simpl; congruence.
    + by transitivity (d_current_hand (dealer g1)).
Qed.

(** After [num_games] rounds of the simulation loop, each followed by
    [reset], [games_played] has gone up by exactly [num_games] and
    [player_wins] and [dealer_wins] by at most [num_games]; the state is
    [PlacingBetsState] again and the same players sit at the table. *)
Theorem simulate_counts (new_deck : list Card) (rounds : list (list Card))
  (g g' : BlackjackGame) :
  current_state g = PlacingBetsState ->
  simulate new_deck rounds g = Some g' ->
  current_state g' = PlacingBetsState
  /\ map name (players g') = map name (players g)
  /\ games_played (stats g') = games_played (stats g) + Z.of_nat (length rounds)
  /\ player_wins (stats g) <= player_wins (stats g')
     <= player_wins (stats g) + Z.of_nat (length rounds)
  /\ dealer_wins (stats g) <= dealer_wins (stats g')
     <= dealer_wins (stats g) + Z.of_nat (length rounds)
  /\ draws (stats g) <= draws (stats g').
Proof.
  intros Hst Hrun.
  destruct (simulate_effect _ _ _ _ Hst Hrun)
    as (Hst' & _ & Hnames & Hgp & Hpw & Hdw & Hdr & _).
  repeat split; try assumption; lia.
Qed.

(** [reset] clears the players' hands, not the dealer's: over the rounds of
    the simulation loop the dealer's hand only grows, by two cards or more
    in every round. *)
Theorem simulate_dealer_hand (new_deck : list Card) (rounds : list (list Card))
  (g g' : BlackjackGame) :
  current_state g = PlacingBetsState ->
  simulate new_deck rounds g = Some g' ->
  d_current_hand (dealer g) `prefix_of` d_current_hand (dealer g')
  /\ (length (d_current_hand (dealer g)) + 2 * length rounds
      <= length (d_current_hand (dealer g')))%nat.
Proof.
  intros Hst Hrun.
  destruct (simulate_effect _ _ _ _ Hst Hrun)
    as (_ & _ & _ & _ & _ & _ & _ & Hprefix & Hcards).
  by split.
Qed.

(** ** The ratio *)

Lemma add_player_table g player g' :
  add_player g player = Some g' -> stats g' = stats g.
Proof.
  unfold add_player. destruct player as [p|]; [|by intros [= <-]].
  destruct (rules g !! "max_players") as [m|]; [|discriminate].
  destruct (m <=? _); [by intros [= <-]|].
  unfold state_add_player. destruct (current_state g); simpl; by intros [= <-].
Qed.

Lemma add_players_table ps :
  forall g g', add_players g ps = Some g' -> stats g' = stats g.
Proof.
  induction ps as [|p ps IH]; intros g g'; cbn [add_players]; [by intros [= <-]|].
  destruct (add_player g (Some p)) as [g1|] eqn:Eadd; [|discriminate].
  intros Hrest. apply IH in Hrest. apply add_player_table in Eadd. congruence.
Qed.

Lemma win_loss_ratio_report s :
  win_loss_ratio (report s) = truediv (player_wins s) (games_played s).
Proof. reflexivity. Qed.

(** *** The true division *)

Lemma truediv_returns a b quotient :
  truediv a b = Some quotient ->
  b <> 0 /\ quotient = SFdiv 53 1024 (of_int a) (of_int b).
Proof.
  unfold truediv. destruct (Z.eqb_spec b 0) as [|Hb]; [discriminate|].
  by destruct (SFdiv _ _ _ _); intros [= <-].
Qed.

(** No game won: the quotient is 0.0. *)
Lemma truediv_none games : 0 < games -> truediv 0 games = Some float_zero.
Proof. destruct games; try lia. reflexivity. Qed.

(** Every game won: the quotient is 1.0. *)
Lemma truediv_all games : 0 < games -> truediv games games = Some float_one.
Proof.
  destruct games as [|m|m]; try lia. intros _.
  unfold truediv, of_int, SFdiv, SFdiv_core_binary. simpl Z.eqb. cbv iota.
  replace (Zdigits2 (Z.pos m) + 0 - (Zdigits2 (Z.pos m) + 0)) with 0 by lia.
  change (Z.min (fexp 53 1024 0) (0 - 0)) with (-53).
  change (0 - 0 - -53) with 53.
  cbv iota beta.
  assert (Hdiv : Z.div_eucl (Z.shiftl (Z.pos m) 53) (Z.pos m) = (2 ^ 53, 0)).
  { rewrite Z.shiftl_mul_pow2 by lia.
    pose proof (Z.div_eucl_eq (Z.pos m * 2 ^ 53) (Z.pos m) ltac:(lia)) as Heq.
    pose proof (Z.mod_pos_bound (Z.pos m * 2 ^ 53) (Z.pos m) ltac:(lia)) as Hmod.
    unfold Z.modulo in Hmod.
    destruct (Z.div_eucl (Z.pos m * 2 ^ 53) (Z.pos m)) as [q r].
    assert (q = 2 ^ 53) by nia. assert (r = 0) by nia. by subst. }
  rewrite Hdiv.
  assert (Hloc : new_location (Z.pos m) 0 = loc_Exact).
  { unfold new_location, new_location_even, new_location_odd.
    by destruct (Z.even (Z.pos m)). }
  rewrite Hloc. reflexivity.
Qed.

(** The division of a count by one that is no smaller does not raise, and
    its quotient is a double from 0.0 to 1.0. *)
Lemma truediv_zero_to_one a b :
  0 <= a <= b -> 0 < b -> exists quotient, truediv a b = Some quotient /\ zero_to_one quotient.
Proof.
  intros [Ha Hab] Hb.
  destruct (Z.eq_dec a 0) as [->|Hpos].
  { exists float_zero. by rewrite truediv_none. }
  destruct (Z.eq_dec a b) as [->|Hne].
  { exists float_one. rewrite truediv_all by exact Hb. split; [reflexivity|].
    split; [lia | reflexivity]. }
  destruct a as [|a|a]; try lia. destruct b as [|b|b]; try lia.
  pose proof (SFdiv_zero_to_one a b ltac:(lia)) as Hq.
  unfold truediv, of_int. simpl Z.eqb. cbv iota.
  destruct (SFdiv 53 1024 _ _) as [sign|sign| |sign m e] eqn:Ediv; simpl in Hq;
    try contradiction; eexists; (split; [reflexivity | exact Hq]).
Qed.

(** [main] computes its ratio only after at least one game: with no game to
    play the division raises, and with one game or more it does not.  When
    [main] gets through, the statistics count as many games as were asked
    for, of which the player has won between none and all, and the ratio is
    the double that the true division of the two counters gives: a double
    from 0.0 to 1.0, 0.0 with no game won and 1.0 with every game won. *)
Theorem main_ratio (rules : gmap string Z) (new_deck : list Card) (ps : list Player)
  (rounds : list (list Card)) :
  main rules new_deck ps [] = None
  /\ (forall seated g,
        add_players (new_game rules new_deck) ps = Some seated ->
        simulate new_deck rounds (set_state seated PlacingBetsState) = Some g ->
        rounds <> [] ->
        exists ratio, main rules new_deck ps rounds = Some (g, ratio))
  /\ forall g ratio, main rules new_deck ps rounds = Some (g, ratio) ->
       let wins := player_wins (stats g) in
       let games := games_played (stats g) in
       games = Z.of_nat (length rounds)
       /\ 0 < games
       /\ 0 <= wins <= games
       /\ ratio = SFdiv 53 1024 (of_int wins) (of_int games)
       /\ zero_to_one ratio
       /\ (wins = 0 -> ratio = float_zero)
       /\ (wins = games -> ratio = float_one).
Proof.
  unfold main. split; [|split].
  - destruct (add_players _ ps) as [g|] eqn:Eadd; [|reflexivity]. simpl.
    apply add_players_table in Eadd. rewrite win_loss_ratio_report. simpl.
    by rewrite Eadd.
  - intros seated g Eadd Esim Hrounds. rewrite Eadd, Esim.
    apply add_players_table in Eadd.
    apply simulate_effect in Esim as (_ & _ & _ & Hgp & Hpw & _); [|reflexivity].
    simpl in Hgp, Hpw. rewrite Eadd in Hgp, Hpw. simpl in Hgp, Hpw.
    rewrite win_loss_ratio_report.
    destruct (truediv_zero_to_one (player_wins (stats g)) (games_played (stats g)))
      as (ratio & -> & _); [lia | destruct rounds; [done | simpl in Hgp; lia] |].
    by exists ratio.
  - intros g ratio.
    destruct (add_players _ ps) as [g0|] eqn:Eadd; [|discriminate].
    apply add_players_table in Eadd.
    destruct (simulate _ rounds _) as [g1|] eqn:Esim; [|discriminate].
    apply simulate_effect in Esim as (_ & _ & _ & Hgp & Hpw & _); [|reflexivity].
    simpl in Hgp, Hpw. rewrite Eadd in Hgp, Hpw. simpl in Hgp, Hpw.
    rewrite win_loss_ratio_report.
    destruct (truediv _ _) as [quotient|] eqn:Ediv; [|discriminate].
    intros [= <- <-]. simpl.
    destruct (truediv_returns _ _ _ Ediv) as [Hgames Hquotient].
    split; [exact Hgp|]. split; [lia|]. split; [lia|]. split; [exact Hquotient|].
    split; [|split].
    + destruct (truediv_zero_to_one (player_wins (stats g1)) (games_played (stats g1)))
        as (ratio & Hratio & Hunit); [lia | lia |]. congruence.
    + intros Hnone. rewrite Hnone, truediv_none in Ediv by lia. congruence.
    + intros Hall. rewrite Hall, truediv_all in Ediv by lia. congruence.
Qed.

End Table.
(** ** On sample tables *)

Lemma DealingState_deal_order_witness :
  exists g',
    DealingState_deal Examples.deck_natural Examples.table = Some g'
    /\ exists first second card1 card2,
        Examples.deck_natural = first ++ card1 :: second ++ card2 :: deck g'
        /\ length first = 1%nat /\ length second = 1%nat
        /\ players g' = zip_with add_card
                          (zip_with add_card (players Examples.table) first) second
        /\ d_current_hand (dealer g') = [card1; card2].
Proof.
  destruct (DealingState_deal Examples.deck_natural Examples.table) as [g'|] eqn:Edeal;
    [|vm_compute in Edeal; discriminate].
  exists g'. split; [reflexivity|].
  exact (DealingState_deal_order _ _ _ Edeal).
Defined.

(** Bob gets the first and the third card, the dealer the second and the
    fourth. *)
Example deal_alternates :
  (fun g => (map current_hand (players g), d_current_hand (dealer g), deck g))
    <$> DealingState_deal Examples.deck_natural Examples.table
  = Some ([[Examples.card Standard.Ace Standard.Spades;
            Examples.card Standard.King Standard.Spades]],
          [Examples.card Standard.Nine Standard.Hearts;
           Examples.card Standard.Seven Standard.Hearts],
          [Examples.card Standard.Two Standard.Clubs;
           Examples.card Standard.Five Standard.Clubs]).
Proof. vm_compute. reflexivity. Qed.

Lemma check_blackjack_pays_naturals_witness :
  Forall (fun q => exact_product (bet q)) (players Examples.natural_dealt)
  /\ value (d_current_hand (dealer Examples.natural_dealt)) <> 21
  /\ exists r,
      players (check_blackjack Examples.natural_dealt) !! 0%nat = Some r
      /\ payouts r = [15%Q]
      /\ (exists product amount,
            double_times 10 = Some product /\ float_value product = Some amount
            /\ (amount == 15)%Q)
      /\ blackjack r = true /\ winner r = Some "player".
Proof.
  assert (Hbets : Forall (fun q => exact_product (bet q)) (players Examples.natural_dealt))
    by (repeat constructor).
  split; [exact Hbets|].
  split; [vm_compute; discriminate|].
  destruct (check_blackjack_pays_naturals Examples.natural_dealt 0 _
              (Forall_impl _ _ _ Hbets (fun q Hq _ => Hq))
              ltac:(vm_compute; discriminate) eq_refl) as (_ & r & Hr & Hpaid & _).
  exists r. split; [exact Hr|].
  destruct (Hpaid eq_refl) as (Hp & Hdouble & Hb & Hw & _).
  split; [exact Hp|]. split; [exact Hdouble|]. split; [exact Hb | exact Hw].
Defined.

(** The product at the table's bet of 10 is the double 15.0; one past
    [2 ^ 53] the conversion of the bet already rounds, and the double is
    half a unit below the exact product. *)
Example double_times_rounds :
  (double_times 10 ≫= float_value, times 10 (3 # 2),
   double_times (2 ^ 53 + 1) ≫= float_value, times (2 ^ 53 + 1) (3 # 2),
   double_times (10 ^ 400))
  = (Some (8444249301319680 # 562949953421312), 15%Q,
     Some 13510798882111488%Q, 27021597764222979 # 2,
     None).
Proof. vm_compute. reflexivity. Qed.

Lemma PlayersTurnState_handle_draws_witness :
  exists g' draws,
    PlayersTurnState_handle Examples.bob_to_move = Some g'
    /\ deck Examples.bob_to_move = concat draws ++ deck g'
    /\ Forall (fun r => is_done r = true) (players g')
    /\ Forall3 turn_played (players Examples.bob_to_move) (players g') draws.
Proof.
  destruct (PlayersTurnState_handle Examples.bob_to_move) as [g'|] eqn:Eturn;
    [|vm_compute in Eturn; discriminate].
  destruct (PlayersTurnState_handle_draws _ _ Eturn) as (draws & Hdeck & _ & Hdone & Hall).
  exists g', draws. by repeat split.
Defined.

(** Bob draws the 4 on 16 and stands on 20; the 5 stays in the deck. *)
Example bob_draws_once :
  (fun g => (map current_hand (players g), map done (players g), deck g))
    <$> PlayersTurnState_handle Examples.bob_to_move
  = Some ([[Examples.card Standard.Ten Standard.Spades;
            Examples.card Standard.Six Standard.Spades;
            Examples.card Standard.Four Standard.Clubs]],
          [true], [Examples.card Standard.Five Standard.Clubs]).
Proof. vm_compute. reflexivity. Qed.

Lemma DealersTurnState_handle_least_witness :
  exists g' k,
    DealersTurnState_handle Examples.dealer_at_sixteen = Some g'
    /\ d_current_hand (dealer g')
       = d_current_hand (dealer Examples.dealer_at_sixteen)
         ++ take k (deck Examples.dealer_at_sixteen)
    /\ deck g' = drop k (deck Examples.dealer_at_sixteen).
Proof.
  destruct (DealersTurnState_handle Examples.dealer_at_sixteen) as [g'|] eqn:Eturn;
    [|vm_compute in Eturn; discriminate].
  destruct (DealersTurnState_handle_least _ _ Eturn) as (k & _ & Hd & Hdeck & _).
  exists g', k. split; [reflexivity|]. by rewrite Hd.
Defined.

Lemma play_round_waiting_witness :
  current_state Examples.full_table = WaitingForPlayersState
  /\ play_round 1000 Examples.deck_natural Examples.full_table = None.
Proof.
  split; [reflexivity|]. by apply play_round_waiting.
Defined.

Lemma handle_keeps_seats_witness :
  exists g',
    handle Examples.deck_natural Examples.natural_dealt = Some g'
    /\ Forall2 (fun p r => seat_kept p r /\ bet r = bet p)
               (players Examples.natural_dealt) (players g').
Proof.
  destruct (handle Examples.deck_natural Examples.natural_dealt) as [g'|] eqn:Eh;
    [|vm_compute in Eh; discriminate].
  exists g'. split; [reflexivity|].
  destruct (handle_keeps_seats _ _ _ Eh) as (Hseats & _).
  eapply Forall2_impl; [exact Hseats|]. intros p r [Hk Hb]. split; [exact Hk|].
  apply Hb. discriminate.
Defined.

Lemma play_round_keeps_seats_witness :
  exists g',
    play_round 5 Examples.deck_sixteen Examples.table = Some g'
    /\ Forall2 seat_kept (players Examples.table) (players g')
    /\ Forall (fun r => bet r = 10) (players g')
    /\ (2 <= length (d_current_hand (dealer g')))%nat.
Proof.
  destruct (play_round 5 Examples.deck_sixteen Examples.table) as [g'|] eqn:Eround;
    [|vm_compute in Eround; discriminate].
  exists g'. split; [reflexivity|].
  destruct (play_round_keeps_seats _ _ _ _ Eround) as (Hseats & _ & Hstart).
  destruct (Hstart eq_refl) as [Hbets Hcards]. by repeat split.
Defined.

Lemma add_players_first_come_witness :
  exists g',
    add_players Examples.table_for_one [Examples.ann; Examples.bob] = Some g'
    /\ players g' = [Examples.ann]
    /\ current_state g' = WaitingForPlayersState.
Proof.
  destruct (add_players_first_come Examples.table_for_one [Examples.ann; Examples.bob] 1
              eq_refl eq_refl) as (g' & Hrun & Hps & Hst).
  exists g'. by repeat split.
Defined.

Lemma simulate_counts_witness :
  exists g',
    simulate [] [Examples.deck_sixteen; Examples.deck_natural] Examples.table = Some g'
    /\ games_played (stats g') = 2
    /\ map name (players g') = ["Bob"].
Proof.
  destruct (simulate [] [Examples.deck_sixteen; Examples.deck_natural] Examples.table)
    as [g'|] eqn:Esim; [|vm_compute in Esim; discriminate].
  exists g'. split; [reflexivity|].
  destruct (simulate_counts [] _ Examples.table g' eq_refl Esim) as (_ & Hnames & Hgp & _).
  by split.
Defined.

Lemma simulate_dealer_hand_witness :
  exists g',
    simulate [] [Examples.deck_sixteen; Examples.deck_natural] Examples.table = Some g'
    /\ (4 <= length (d_current_hand (dealer g')))%nat.
Proof.
  destruct (simulate [] [Examples.deck_sixteen; Examples.deck_natural] Examples.table)
    as [g'|] eqn:Esim; [|vm_compute in Esim; discriminate].
  exists g'. split; [reflexivity|].
  destruct (simulate_dealer_hand [] _ Examples.table g' eq_refl Esim) as (_ & Hcards). exact Hcards.
Defined.

(** Two games: the dealer ends the second one with the three cards of the
    first still in hand. *)
Example dealer_keeps_old_cards :
  (fun g => (map current_hand (players g), d_current_hand (dealer g)))
    <$> simulate [] [Examples.deck_sixteen; Examples.deck_natural] Examples.table
  = Some ([[]],
          [Examples.card Standard.Ten Standard.Hearts;
           Examples.card Standard.Six Standard.Hearts;
           Examples.card Standard.Five Standard.Clubs;
           Examples.card Standard.Nine Standard.Hearts;
           Examples.card Standard.Seven Standard.Hearts]).
Proof. vm_compute. reflexivity. Qed.

Lemma main_ratio_witness :
  exists g ratio,
    main {[ "max_players" := 6 ]} [] [Examples.bob]
         [Examples.deck_sixteen; Examples.deck_natural] = Some (g, ratio)
    /\ games_played (stats g) = 2
    /\ 0 <= player_wins (stats g) <= 2
    /\ ratio = SFdiv 53 1024 (of_int (player_wins (stats g))) (of_int 2)
    /\ zero_to_one ratio.
Proof.
  destruct (main {[ "max_players" := 6 ]} [] [Examples.bob]
                 [Examples.deck_sixteen; Examples.deck_natural])
    as [[g ratio]|] eqn:Emain; [|vm_compute in Emain; discriminate].
  exists g, ratio. split; [reflexivity|].
  destruct (proj2 (proj2 (main_ratio _ _ _ _)) g ratio Emain)
    as (Hgames & _ & Hwins & Hratio & Hunit & _).
  simpl in Hgames, Hwins, Hratio. rewrite Hgames in Hwins, Hratio.
  split; [exact Hgames|]. split; [exact Hwins|]. split; [exact Hratio | exact Hunit].
Defined.

(** Two games, the first lost at 20 against 21, the second won with A K:
    the ratio is 0.5. *)
Example main_two_games :
  snd <$> main {[ "max_players" := 6 ]} [] [Examples.bob]
               [Examples.deck_sixteen; Examples.deck_natural]
  = Some (S754_finite false 4503599627370496 (-53)).
Proof. vm_compute. reflexivity. Qed.

(** [main] with one game to play and with none. *)
Example main_one_game :
  (snd <$> main {[ "max_players" := 6 ]} [] [Examples.bob] [Examples.deck_natural],
   main {[ "max_players" := 6 ]} [] [Examples.bob] ([] : list (list Card)))
  = (Some float_one, None).
Proof. vm_compute. reflexivity. Qed.

End BlackjackMore.

(** * More about the high-card game *)
Module HighCardMore.
Import HighCard HighCardFacts.

Section Rounds.
Context {Card : Type} (show_card : Card -> string) (rank_gt : Card -> Card -> bool).

(** ** Who draws what *)

Lemma draw_loop_shape player_list :
  forall (g : HighCardGame) high_card winner g' winner',
    draw_loop show_card rank_gt player_list g high_card winner = Some (g', winner') ->
    (length player_list <= length (deck g))%nat
    /\ deck g' = drop (length player_list) (deck g)
    /\ map name (players g') = map name (players g)
    /\ Forall (fun i => (i < length (players g))%nat) player_list
    /\ (winner' = winner \/ exists i, winner' = Some i /\ i ∈ player_list).
Proof.
  induction player_list as [|i player_list IH]; intros g high_card winner g' winner';
    simpl.
  - intros [= <- <-]. split; [lia|]. split; [done|]. split; [done|].
    split; [constructor | by left].
  - destruct (players g !! i) as [player|] eqn:Ei; [|discriminate].
    destruct (deck g) as [|drawn_card rest] eqn:Edeck; [discriminate|].
    simpl.
    assert (Hnames : map name (<[i := mkPlayer (name player) [[] ++ [drawn_card]]]>
                                 (players g))
                     = map name (players g)).
    { rewrite list_fmap_insert. simpl. apply list_insert_id.
      by rewrite list_lookup_fmap, Ei. }
    assert (Hi : (i < length (players g))%nat) by (eapply lookup_lt_Some; exact Ei).
    destruct (beats rank_gt drawn_card high_card); intros Hrun;
      apply IH in Hrun as (Hlen & Hdeck & Hn & Hall & Hw); simpl in *;
      rewrite length_insert in Hall;
      (repeat split; [lia | exact Hdeck | congruence | by constructor |]).
    + right. destruct Hw as [->|(j & -> & Hj)]; eexists; split; try done;
        [apply list_elem_of_here | by apply list_elem_of_further].
    + destruct Hw as [->|(j & -> & Hj)]; [by left|right].
      eexists. split; [done|]. by apply list_elem_of_further.
Qed.

Lemma draw_loop_ok player_list :
  forall (g : HighCardGame) high_card winner,
    (length player_list <= length (deck g))%nat ->
    Forall (fun i => (i < length (players g))%nat) player_list ->
    is_Some (draw_loop show_card rank_gt player_list g high_card winner).
Proof.
  induction player_list as [|i player_list IH]; intros g high_card winner Hlen Hall;
    simpl.
  - by eexists.
  - apply Forall_cons in Hall as [Hi Hall].
    destruct (lookup_lt_is_Some_2 _ _ Hi) as [player ->].
    destruct (deck g) as [|drawn_card rest]; simpl in Hlen; [lia|]. simpl.
    destruct (beats rank_gt drawn_card high_card); apply IH; simpl;
      rewrite ?length_insert; try lia; exact Hall.
Qed.

(** [play_round] raises exactly when the deck has fewer cards than there are
    players to draw, or when a position of the drawing order is not a seat. *)
Theorem play_round_raises (fresh : list Card) (player_list : list nat)
  (g : HighCardGame) :
  play_round show_card rank_gt fresh player_list g = None
  <-> (length fresh < length player_list)%nat
      \/ Exists (fun i => (length (players g) <= i)%nat) player_list.
Proof.
  unfold play_round.
  destruct (draw_loop _ _ _ _ _ _) as [[g1 winner]|] eqn:Eloop.
  - apply draw_loop_shape in Eloop as (Hlen & _ & Hn & Hall & Hw). simpl in *.
    split.
    + destruct winner as [i|]; [|discriminate].
      destruct Hw as [|(j & [= ->] & Hj)]; [discriminate|].
      rewrite Forall_forall in Hall. specialize (Hall _ Hj).
      apply (f_equal length) in Hn. rewrite !length_map in Hn.
      destruct (lookup_lt_is_Some_2 (players g1) j) as [w ->]; [lia|]. discriminate.
    + intros [Hshort|Hbad]; [lia|].
      apply Exists_exists in Hbad as (i & Hin & Hi).
      rewrite Forall_forall in Hall. specialize (Hall _ Hin). lia.
  - split; [intros _|done].
    destruct (Nat.lt_ge_cases (length fresh) (length player_list)) as [|Hlen];
      [by left|right].
    destruct (decide (Exists (fun i => (length (players g) <= i)%nat) player_list))
      as [Hbad|Hall]; [exact Hbad|].
    apply not_Exists_Forall in Hall; [|intros i; apply _].
    destruct (draw_loop_ok player_list
                (mkGame (players g) fresh (io_interface g) (game_state g)) None None)
      as [r Hr]; simpl; [lia| |congruence].
    eapply Forall_impl; [exact Hall|]. simpl. intros i Hi. lia.
Qed.

(** ** The winner *)

Lemma beats_true (key : Card -> Z) drawn_card high_card :
  (forall a b, rank_gt a b = (key b <? key a)) ->
  beats rank_gt drawn_card high_card = true
  <-> high_card = None
      \/ exists h, high_card = Some h /\ key h < key drawn_card.
Proof.
  intros Hkey. destruct high_card as [h|]; simpl.
  - rewrite Hkey, Z.ltb_lt. split.
    + intros Hlt. right. by exists h.
    + by intros [|(h' & [= <-] & Hlt)].
  - split; [by left | done].
Qed.

Lemma draw_loop_best (key : Card -> Z) player_list :
  (forall a b, rank_gt a b = (key b <? key a)) ->
  forall (g : HighCardGame) high_card winner g' winner',
    draw_loop show_card rank_gt player_list g high_card winner = Some (g', winner') ->
    (winner' = winner
     /\ forall j c, (j < length player_list)%nat -> deck g !! j = Some c ->
          exists h, high_card = Some h /\ key c <= key h)
    \/ exists j i c,
         player_list !! j = Some i /\ deck g !! j = Some c /\ winner' = Some i
         /\ beats rank_gt c high_card = true
         /\ (forall j' c', (j' < j)%nat -> deck g !! j' = Some c' -> key c' < key c)
         /\ (forall j' c', (j' < length player_list)%nat -> deck g !! j' = Some c' ->
               key c' <= key c).
Proof.
  intros Hkey.
  induction player_list as [|i player_list IH]; intros g high_card winner g' winner';
    simpl.
  - intros [= <- <-]. left. split; [done|]. intros j c Hj. lia.
  - destruct (players g !! i) as [player|]; [|discriminate].
    destruct (deck g) as [|c0 rest] eqn:Edeck; [discriminate|]. simpl.
    destruct (beats rank_gt c0 high_card) eqn:Ebeats; intros Hrun; apply IH in Hrun;
      simpl in Hrun.
    + right. destruct Hrun as [[-> Hrest] | (j & i' & c & Hj & Hc & -> & Hb & Hprior & Hall)].
      * exists 0%nat, i, c0. repeat split; try done; [intros j' c' Hj'; lia|].
        intros [|j'] c' Hj' Hc'; simpl in Hc'; [injection Hc' as <-; lia|].
        destruct (Hrest j' c' ltac:(lia) Hc') as (h & [= <-] & Hle). exact Hle.
      * rewrite Hkey in Hb. apply Z.ltb_lt in Hb.
        exists (S j), i', c. repeat split; try done.
        -- apply (beats_true key); [exact Hkey|].
           apply (beats_true key) in Ebeats as [->|(h & -> & Hlt')]; [by left| |exact Hkey].
           right. exists h. split; [done | lia].
        -- intros [|j'] c' Hj' Hc'; simpl in Hc'; [injection Hc' as <-; lia|].
           apply (Hprior j' c'); [lia | exact Hc'].
        -- intros [|j'] c' Hj' Hc'; simpl in Hc'; [injection Hc' as <-; lia|].
           apply (Hall j' c'); [lia | exact Hc'].
    + assert (Hh : exists h, high_card = Some h /\ key c0 <= key h).
      { destruct high_card as [h|]; [|discriminate]. simpl in Ebeats.
        rewrite Hkey in Ebeats. apply Z.ltb_ge in Ebeats. by exists h. }
      destruct Hh as (h & -> & Hle).
      destruct Hrun as [[-> Hrest] | (j & i' & c & Hj & Hc & -> & Hb & Hprior & Hall)].
      * left. split; [done|]. intros [|j'] c' Hj' Hc'; simpl in Hc'.
        -- injection Hc' as <-. by exists h.
        -- apply (Hrest j' c'); [lia | exact Hc'].
      * right. exists (S j), i', c. simpl in Hb. rewrite Hkey in Hb.
        apply Z.ltb_lt in Hb. repeat split; try done.
        -- simpl. rewrite Hkey. by apply Z.ltb_lt.
        -- intros [|j'] c' Hj' Hc'; simpl in Hc'; [injection Hc' as <-; lia|].
           apply (Hprior j' c'); [lia | exact Hc'].
        -- intros [|j'] c' Hj' Hc'; simpl in Hc'; [injection Hc' as <-; lia|].
           apply (Hall j' c'); [lia | exact Hc'].
Qed.

(** Let the ranks be ordered by a number.  The winner of a round is the
    player who drew a card of the highest rank drawn in that round; when
    several drew that rank, it is the one who drew first.  The players draw
    in the shuffled order, each the next card from the top of the deck. *)
Theorem play_round_highest (key : Card -> Z) (fresh : list Card)
  (player_list : list nat) (g g' : HighCardGame) (winner : SimplePlayer) :
  (forall a b, rank_gt a b = (key b <? key a)) ->
  play_round show_card rank_gt fresh player_list g = Some (Some winner, g') ->
  exists j i p c,
    player_list !! j = Some i /\ players g !! i = Some p /\ name winner = name p
    /\ fresh !! j = Some c
    /\ (forall j' c', (j' < j)%nat -> fresh !! j' = Some c' -> key c' < key c)
    /\ (forall j' c', (j' < length player_list)%nat -> fresh !! j' = Some c' ->
          key c' <= key c).
Proof.
  intros Hkey. unfold play_round.
  destruct (draw_loop _ _ _ _ _ _) as [[g1 [i|]]|] eqn:Eloop; try discriminate.
  destruct (players g1 !! i) as [w|] eqn:Ew; [|discriminate].
  intros [= -> <-].
  pose proof (draw_loop_shape _ _ _ _ _ _ Eloop) as (_ & _ & Hn & _).
  apply (draw_loop_best key) in Eloop; [|exact Hkey]. simpl in *.
  destruct Eloop as [[[=] _] | (j & i' & c & Hj & Hc & [= <-] & _ & Hprior & Hall)].
  assert (Hname : map name (players g) !! i = Some (name winner)).
  { rewrite <- Hn. change (map name (players g1)) with (name <$> players g1).
    by rewrite list_lookup_fmap, Ew. }
  change (map name (players g)) with (name <$> players g) in Hname.
  rewrite list_lookup_fmap in Hname.
  destruct (players g !! i) as [p|] eqn:Ep; [|discriminate]. injection Hname as Hname.
  exists j, i, p, c. by repeat split.
Qed.

Lemma play_round_somebody fresh player_list (g g' : HighCardGame) winner :
  play_round show_card rank_gt fresh player_list g = Some (winner, g') ->
  winner = None <-> player_list = [].
Proof.
  unfold play_round.
  destruct (draw_loop _ _ _ _ _ _) as [[g1 w]|] eqn:Eloop; [|discriminate].
  assert (Hw : w = None <-> player_list = []).
  { destruct player_list as [|i player_list]; simpl in Eloop.
    - injection Eloop as _ <-. done.
    - destruct (players g !! i); [|discriminate].
      destruct fresh as [|c rest]; [discriminate|]. simpl in Eloop.
      apply draw_loop_shape in Eloop as (_ & _ & _ & _ & [->|(k & -> & _)]); done. }
  destruct w as [i|].
  - destruct (players g1 !! i); [|discriminate]. intros [= <- _].
    split; [done|]. intros Hnil. by apply Hw in Hnil.
  - intros [= <- _]. split; [intros _; by apply Hw | done].
Qed.

(** A round that returns has a winner exactly when somebody drew; a round
    without a winner leaves the statistics as they were, [rounds_played]
    included. *)
Theorem play_round_nobody (fresh : list Card) (player_list : list nat)
  (g g' : HighCardGame) (winner : option SimplePlayer) :
  play_round show_card rank_gt fresh player_list g = Some (winner, g') ->
  (winner = None <-> player_list = [])
  /\ (winner = None -> game_state g' = game_state g).
Proof.
  intros Hrun. split; [by apply (play_round_somebody _ _ _ _ _ Hrun)|].
  intros ->. revert Hrun. unfold play_round.
  destruct (draw_loop _ _ _ _ _ _) as [[g1 [i|]]|] eqn:Eloop; try discriminate.
  - by destruct (players g1 !! i).
  - intros [= <-]. by apply draw_loop_game_state in Eloop.
Qed.

(** ** What the statistics keep *)

(** The state after a round with the winner [w]. *)
Lemma play_round_state fresh player_list (g g' : HighCardGame) winner :
  play_round show_card rank_gt fresh player_list g = Some (winner, g') ->
  game_state g'
  = match winner with
    | None => game_state g
    | Some w => update_state (game_state g) (round_update (game_state g) (name w))
    end.
Proof.
  unfold play_round.
  destruct (draw_loop _ _ _ _ _ _) as [[g1 [i|]]|] eqn:Eloop; try discriminate.
  - apply draw_loop_game_state in Eloop. simpl in Eloop.
    destruct (players g1 !! i); [|discriminate]. intros [= <- <-]. simpl.
    by rewrite Eloop.
  - apply draw_loop_game_state in Eloop. intros [= <- <-]. exact Eloop.
Qed.

Lemma get0_insert (d : gmap string Z) k v n :
  get0 (<[k := v]> d) n = if decide (k = n) then v else get0 d n.
Proof. unfold get0. rewrite lookup_insert. by destruct (decide (k = n)). Qed.

Lemma round_update_streaks st w :
  streaks_ordered st ->
  streaks_ordered (update_state st (round_update st w)).
Proof.
  intros Hord n. simpl. rewrite !get0_insert.
  destruct (decide (w = n)) as [->|Hne].
  - specialize (Hord n). lia.
  - specialize (Hord n). unfold get0 in *.
    rewrite lookup_fmap, map_lookup_imap, !others_lookup_ne by done.
    destruct (current_streak st !! n), (max_streak st !! n); simpl in *; lia.
Qed.

(** In every entry the longest streak is at least the current one, and neither
    is negative: a round keeps it so. *)
Theorem play_round_streaks (fresh : list Card) (player_list : list nat)
  (g g' : HighCardGame) (winner : option SimplePlayer) :
  streaks_ordered (game_state g) ->
  play_round show_card rank_gt fresh player_list g = Some (winner, g') ->
  streaks_ordered (game_state g').
Proof.
  intros Hord Hrun. rewrite (play_round_state _ _ _ _ _ Hrun).
  destruct winner; [by apply round_update_streaks | exact Hord].
Qed.

Lemma total_comm (j1 j2 : string) (z1 z2 y : Z) : z1 + (z2 + y) = z2 + (z1 + y).
Proof. lia. Qed.

Lemma total_insert (d : gmap string Z) k v :
  total (<[k := v]> d) = v + total (delete k d).
Proof.
  unfold total. rewrite <- insert_delete_eq.
  apply (map_fold_insert_L (fun _ v acc => v + acc)).
  - intros. apply total_comm; done.
  - apply lookup_delete_eq.
Qed.

Lemma total_get0 (d : gmap string Z) k : total d = get0 d k + total (delete k d).
Proof.
  unfold get0. destruct (d !! k) as [v|] eqn:Ek; simpl.
  - rewrite <- (insert_delete_id d k v Ek) at 1. rewrite total_insert.
    by rewrite delete_delete_eq.
  - by rewrite delete_id.
Qed.

Lemma round_update_total st w :
  total (wins (update_state st (round_update st w))) = total (wins st) + 1.
Proof. simpl. rewrite total_insert, (total_get0 (wins st) w). lia. Qed.

(** The wins add up to the rounds: a round with a winner adds 1 to
    [rounds_played] and 1 to the sum of all entries of [wins], a round
    without a winner adds nothing to either. *)
Theorem play_round_wins_total (fresh : list Card) (player_list : list nat)
  (g g' : HighCardGame) (winner : option SimplePlayer) :
  play_round show_card rank_gt fresh player_list g = Some (winner, g') ->
  total (wins (game_state g')) - rounds_played (game_state g')
  = total (wins (game_state g)) - rounds_played (game_state g)
  /\ rounds_played (game_state g')
     = rounds_played (game_state g) + match winner with Some _ => 1 | None => 0 end.
Proof.
  intros Hrun. rewrite (play_round_state _ _ _ _ _ Hrun).
  destruct winner as [w|]; [|split; lia].
  rewrite round_update_total. simpl. split; lia.
Qed.

(** No name leaves the statistics: after a round each of the three
    dictionaries has the keys it had and, when there is one, the winner's
    name. *)
Theorem play_round_names (fresh : list Card) (player_list : list nat)
  (g g' : HighCardGame) (winner : option SimplePlayer) :
  play_round show_card rank_gt fresh player_list g = Some (winner, g') ->
  let st := game_state g in
  let st' := game_state g' in
  let added : gset string := match winner with Some w => {[ name w ]} | None => ∅ end in
  dom (wins st') = dom (wins st) ∪ added
  /\ dom (current_streak st') = dom (current_streak st) ∪ added
  /\ dom (max_streak st') = dom (max_streak st) ∪ added.
Proof.
  intros Hrun. simpl. rewrite (play_round_state _ _ _ _ _ Hrun).
  destruct winner as [w|]; [|by rewrite !union_empty_r_L].
  simpl. rewrite !dom_insert_L.
  assert (Hin : forall (d e : gmap string Z),
            (forall n, n <> name w -> is_Some (e !! n) <-> is_Some (d !! n)) ->
            {[name w]} ∪ dom e = dom d ∪ ({[name w]} : gset string)).
  { intros d e He. apply set_eq. intros n.
    rewrite !elem_of_union, !elem_of_dom, elem_of_singleton.
    destruct (decide (n = name w)) as [->|Hne]; [tauto|]. rewrite (He n Hne). tauto. }
  split; [|split]; apply Hin; intros n Hne.
  - reflexivity.
  - by rewrite lookup_fmap, fmap_is_Some, others_lookup_ne.
  - rewrite map_lookup_imap, others_lookup_ne by done.
    destruct (max_streak (game_state g) !! n); simpl; [|done].
    split; intros _; by eexists.
Qed.

(** ** Many rounds *)

Lemma init_state_zero (player_names : list string) k v :
  wins (init_state player_names) !! k = Some v -> v = 0.
Proof.
  simpl. intros Hk. apply elem_of_list_to_map_2 in Hk.
  apply list_elem_of_fmap in Hk as (n & [= -> ->] & _). reflexivity.
Qed.

Lemma total_zero (d : gmap string Z) :
  (forall k v, d !! k = Some v -> v = 0) -> total d = 0.
Proof.
  induction d as [|k v d Hk _ IH] using map_first_key_ind; intros Hzero.
  - reflexivity.
  - rewrite total_insert, delete_id by done.
    rewrite (Hzero k v) by apply lookup_insert_eq.
    rewrite IH; [reflexivity|]. intros k' v' Hk'. apply (Hzero k').
    rewrite lookup_insert_ne; [done|]. intros ->. congruence.
Qed.

Lemma play_rounds_inv rounds :
  forall (g g' : HighCardGame),
    play_rounds show_card rank_gt rounds g = Some g' ->
    (streaks_ordered (game_state g) -> streaks_ordered (game_state g'))
    /\ total (wins (game_state g')) - rounds_played (game_state g')
       = total (wins (game_state g)) - rounds_played (game_state g)
    /\ rounds_played (game_state g')
       = rounds_played (game_state g)
         + Z.of_nat (length (filter (fun r => r.2 <> []) rounds)).
Proof.
  induction rounds as [|[fresh player_list] rounds IH]; intros g g'; simpl.
  - intros [= <-]. split; [done|]. split; [done | simpl; lia].
  - destruct (play_round _ _ fresh player_list g) as [[winner g1]|] eqn:Eround;
      [|discriminate].
    intros Hrest. apply IH in Hrest as (Hord & Htotal & Hrounds).
    pose proof (play_round_state _ _ _ _ _ Eround) as Hst.
    pose proof (play_round_somebody _ _ _ _ _ Eround) as Hwinner.
    rewrite filter_cons. simpl.
    destruct winner as [w|].
    + rewrite decide_True by (intros Hnil; by apply Hwinner in Hnil). simpl length.
      split; [|split].
      * intros H0. apply Hord. rewrite Hst. by apply round_update_streaks.
      * rewrite Htotal, Hst, round_update_total. simpl. lia.
      * rewrite Hrounds, Hst. simpl. lia.
    + rewrite decide_False by (intros Hne; by apply Hne, Hwinner).
      rewrite Hst in *. split; [exact Hord|]. split; [exact Htotal | exact Hrounds].
Qed.

Lemma init_state_streaks (player_names : list string) :
  streaks_ordered (init_state player_names).
Proof.
  intros n. unfold get0. simpl.
  destruct (_ !! n) as [v|] eqn:Ev; simpl; [|lia].
  apply elem_of_list_to_map_2 in Ev.
  apply list_elem_of_fmap in Ev as (k & [= -> ->] & _). lia.
Qed.

(** From a new [HighCardGameState], after any number of rounds: the entries
    of [wins] add up to [rounds_played], which is the number of rounds in
    which somebody drew, and in every entry the longest streak is at least
    the current one. *)
Theorem play_rounds_from_start (player_names : list string)
  (rounds : list (list Card * list nat)) (g g' : HighCardGame) :
  game_state g = init_state player_names ->
  play_rounds show_card rank_gt rounds g = Some g' ->
  total (wins (game_state g')) = rounds_played (game_state g')
  /\ rounds_played (game_state g')
     = Z.of_nat (length (filter (fun r => r.2 <> []) rounds))
  /\ streaks_ordered (game_state g').
Proof.
  intros Hinit Hrun.
  destruct (play_rounds_inv _ _ _ Hrun) as (Hord & Htotal & Hrounds).
  rewrite Hinit in *.
  rewrite (total_zero (wins (init_state player_names)))
    in Htotal by apply init_state_zero.
  simpl in Htotal, Hrounds. split; [lia|]. split; [lia|].
  apply Hord. intros n. unfold get0. simpl.
  destruct (_ !! n) as [v|] eqn:Ev; simpl; [|lia].
  apply (init_state_zero player_names) in Ev. lia.
Qed.

End Rounds.
(** ** On Alice and Bob *)

Lemma standard_rank_order (a b : Standard.Card) :
  Standard.rank_gt a b
  = (Standard.rank_order (Standard.rank b) <? Standard.rank_order (Standard.rank a)).
Proof. reflexivity. Qed.

Lemma play_round_highest_witness :
  exists winner g' j c,
    play_round Standard.show_card Standard.rank_gt HighCardExamples.king_then_five
               [1%nat; 0%nat] HighCardExamples.game
    = Some (Some winner, g')
    /\ HighCardExamples.king_then_five !! j = Some c
    /\ forall j' c', (j' < 2)%nat -> HighCardExamples.king_then_five !! j' = Some c' ->
         Standard.rank_order (Standard.rank c') <= Standard.rank_order (Standard.rank c).
Proof.
  destruct (play_round Standard.show_card Standard.rank_gt
              HighCardExamples.king_then_five [1%nat; 0%nat] HighCardExamples.game)
    as [[[winner|] g']|] eqn:Erun; try (vm_compute in Erun; discriminate).
  destruct (play_round_highest Standard.show_card Standard.rank_gt
              (fun c => Standard.rank_order (Standard.rank c)) _ _ _ _ _
              standard_rank_order Erun)
    as (j & i & p & c & _ & _ & _ & Hc & _ & Hall).
  exists winner, g', j, c. split; [reflexivity|]. split; [exact Hc | exact Hall].
Defined.

Lemma play_round_nobody_witness :
  exists g',
    play_round Standard.show_card Standard.rank_gt HighCardExamples.king_then_five []
               HighCardExamples.game
    = Some (None, g')
    /\ game_state g' = game_state HighCardExamples.game.
Proof.
  destruct (play_round Standard.show_card Standard.rank_gt
              HighCardExamples.king_then_five [] HighCardExamples.game)
    as [[[winner|] g']|] eqn:Erun; try (vm_compute in Erun; discriminate).
  exists g'. split; [reflexivity|].
  by apply (proj2 (play_round_nobody _ _ _ _ _ _ _ Erun)).
Defined.

Lemma play_round_streaks_witness :
  exists winner g',
    play_round Standard.show_card Standard.rank_gt HighCardExamples.king_then_five
               [1%nat; 0%nat] HighCardExamples.game
    = Some (winner, g')
    /\ streaks_ordered (game_state g').
Proof.
  destruct (play_round Standard.show_card Standard.rank_gt
              HighCardExamples.king_then_five [1%nat; 0%nat] HighCardExamples.game)
    as [[winner g']|] eqn:Erun; [|vm_compute in Erun; discriminate].
  exists winner, g'. split; [reflexivity|].
  apply (play_round_streaks _ _ _ _ HighCardExamples.game _ _
           (init_state_streaks ["Alice"; "Bob"]) Erun).
Defined.

Lemma play_round_wins_total_witness :
  exists winner g',
    play_round Standard.show_card Standard.rank_gt HighCardExamples.king_then_five
               [1%nat; 0%nat] HighCardExamples.bob_on_a_streak
    = Some (winner, g')
    /\ total (wins (game_state g')) - rounds_played (game_state g') = 0.
Proof.
  destruct (play_round Standard.show_card Standard.rank_gt
              HighCardExamples.king_then_five [1%nat; 0%nat]
              HighCardExamples.bob_on_a_streak)
    as [[winner g']|] eqn:Erun; [|vm_compute in Erun; discriminate].
  exists winner, g'. split; [reflexivity|].
  destruct (play_round_wins_total _ _ _ _ _ _ _ Erun) as [-> _]. reflexivity.
Defined.

Lemma play_round_names_witness :
  exists winner g',
    play_round Standard.show_card Standard.rank_gt HighCardExamples.king_then_five
               [1%nat; 0%nat] HighCardExamples.bob_on_a_streak
    = Some (Some winner, g')
    /\ dom (wins (game_state g'))
       = dom (wins (game_state HighCardExamples.bob_on_a_streak)) ∪ {[ name winner ]}.
Proof.
  destruct (play_round Standard.show_card Standard.rank_gt
              HighCardExamples.king_then_five [1%nat; 0%nat]
              HighCardExamples.bob_on_a_streak)
    as [[[winner|] g']|] eqn:Erun; try (vm_compute in Erun; discriminate).
  exists winner, g'. split; [reflexivity|].
  exact (proj1 (play_round_names _ _ _ _ _ _ _ Erun)).
Defined.

Lemma play_rounds_from_start_witness :
  exists g',
    play_rounds Standard.show_card Standard.rank_gt
      [(HighCardExamples.king_then_five, [0%nat; 1%nat]);
       (HighCardExamples.king_then_five, [1%nat; 0%nat])]
      HighCardExamples.game
    = Some g'
    /\ total (wins (game_state g')) = rounds_played (game_state g')
    /\ rounds_played (game_state g') = 2.
Proof.
  destruct (play_rounds Standard.show_card Standard.rank_gt
              [(HighCardExamples.king_then_five, [0%nat; 1%nat]);
               (HighCardExamples.king_then_five, [1%nat; 0%nat])]
              HighCardExamples.game) as [g'|] eqn:Erun;
    [|vm_compute in Erun; discriminate].
  exists g'. split; [reflexivity|].
  destruct (play_rounds_from_start _ _ ["Alice"; "Bob"] _ HighCardExamples.game _
              eq_refl Erun)
    as (Htotal & Hrounds & _).
  split; [exact Htotal | exact Hrounds].
Defined.

(** Two rounds: Alice wins the first, Bob the second. *)
Example two_rounds :
  (fun g : @HighCardGame Standard.Card =>
     (rounds_played (game_state g), map_to_list (wins (game_state g)),
      map_to_list (current_streak (game_state g)),
      map_to_list (max_streak (game_state g))))
    <$> play_rounds Standard.show_card Standard.rank_gt
          [(HighCardExamples.king_then_five, [0%nat; 1%nat]);
           (HighCardExamples.king_then_five, [1%nat; 0%nat])]
          HighCardExamples.game
  = Some (2, [("Alice", 1); ("Bob", 1)], [("Alice", 0); ("Bob", 1)],
          [("Alice", 1); ("Bob", 1)]).
Proof. vm_compute. reflexivity. Qed.

End HighCardMore.
